(** * Icon generator ([src-tauri/icons/generate.py])

    A shallow embedding of the icon generation script and of the part of
    the Python runtime it drives: [os.path], the file system, the object
    store holding Pillow images, and Pillow's [Image.open], [convert],
    [resize] and [save] with the PNG, ICO and ICNS save handlers.

    The script is sequential and effectful, so it is written in a state
    and exception monad over a [World].  What Pillow computes on pixel
    data (resampling, mode conversion, decoding) is kept as parameters of
    the development: nothing below depends on the values they return. *)

From Stdlib Require Import Ascii.
From stdpp Require Import gmap strings list pretty sorting.

Open Scope string_scope.
Open Scope Z_scope.
Open Scope list_scope.

(** ** [posixpath] *)

Module posixpath.

Definition is_sep (c : ascii) : bool := Ascii.eqb c "/"%char.

(** [b.startswith('/')] *)
Definition startswith_sep (b : string) : bool :=
  match b with
  | String c _ => is_sep c
  | EmptyString => false
  end.

(** [a.endswith('/')] *)
Fixpoint endswith_sep (a : string) : bool :=
  match a with
  | EmptyString => false
  | String c EmptyString => is_sep c
  | String _ r => endswith_sep r
  end.

Definition is_empty (s : string) : bool :=
  match s with EmptyString => true | _ => false end.

(** One round of the loop of [posixpath.join]. *)
Definition join2 (path b : string) : string :=
  if startswith_sep b then b
  else if is_empty path || endswith_sep path then path +:+ b
  else path +:+ "/" +:+ b.

(** [os.path.join(a, *p)] *)
Definition join (a : string) (p : list string) : string :=
  fold_left join2 p a.

Fixpoint has_sep (p : string) : bool :=
  match p with
  | EmptyString => false
  | String c r => is_sep c || has_sep r
  end.

(** [p[:p.rfind('/') + 1]] *)
Fixpoint head_of (p : string) : string :=
  match p with
  | EmptyString => EmptyString
  | String c r => if has_sep p then String c (head_of r) else EmptyString
  end.

(** [s.rstrip('/')] *)
Fixpoint rstrip_sep (s : string) : string :=
  match s with
  | EmptyString => EmptyString
  | String c r =>
      let r' := rstrip_sep r in
      if is_sep c && is_empty r' then EmptyString else String c r'
  end.

(** [os.path.dirname(p)]: the head is stripped of trailing slashes
    unless it consists of slashes only. *)
Definition dirname (p : string) : string :=
  let head := head_of p in
  if negb (is_empty head) && negb (is_empty (rstrip_sep head))
  then rstrip_sep head else head.

(** The path itself followed by its chain of [dirname]s; the fuel
    bounds the chain by the length of the path. *)
Fixpoint lineage (fuel : nat) (p : string) : list string :=
  match fuel with
  | O => [p]
  | S n =>
      let d := dirname p in
      if is_empty d || String.eqb d p then [p] else p :: lineage n d
  end.

Definition ancestors (p : string) : list string :=
  lineage (String.length p) p.

End posixpath.

(** ** Images *)

(** Pillow's mode strings ("L", "P", "RGB", "RGBA"). *)
Inductive mode := L | P | RGB | RGBA.

(** Resampling filters of [PIL.Image]. *)
Inductive filter := NEAREST | BOX | BILINEAR | HAMMING | BICUBIC | LANCZOS.

(** A decoded bitmap: [im.size], [im.mode] and the raw pixel bytes. *)
Record Image := {
  im_size : Z * Z;
  im_mode : mode;
  im_data : list Z;
}.

Definition width (im : Image) : Z := fst (im_size im).
Definition height (im : Image) : Z := snd (im_size im).



Definition size_eqb (a b : Z * Z) : bool :=
  (fst a =? fst b) && (snd a =? snd b).

(** ** Files *)

Inductive format := PNG | ICO | ICNS.

Definition format_name (f : format) : string :=
  match f with PNG => "PNG" | ICO => "ICO" | ICNS => "ICNS" end.

(** What a path holds.  A container written by Pillow is identified
    with the bitmaps it embeds: a PNG holds one, an ICO holds one entry
    per frame, each entry carrying the dimensions of its own bitmap, an
    ICNS bundle is built from one bitmap.  [Blob] is any other content;
    [Partial whole] is an initial part, possibly empty, of the bytes of
    [whole], as a write that failed midway leaves it. *)
Inductive file :=
| PNG_file (im : Image)
| ICO_file (frames : list Image)
| ICNS_file (im : Image)
| Blob (bytes : list Z)
| Partial (whole : file).

(** ** Exceptions

    The classes derived from [Exception] that the modelled calls raise.
    These are the classes an [except Exception] clause matches.  The
    interpreter signals that derive from [BaseException] only
    ([KeyboardInterrupt], [SystemExit]) are asynchronous and raised by
    none of the modelled calls. *)
Inductive exn :=
| KeyError (key : string)
| ValueError (msg : string)
| IndexError (msg : string)
| OverflowError (msg : string)
| MemoryError
| SystemError (msg : string)
| OSError (msg : string)
| FileNotFoundError (path : string)
| FileExistsError (path : string)
| NotADirectoryError (path : string)
| IsADirectoryError (path : string)
| PermissionError (path : string)
| UnidentifiedImageError (path : string).

Inductive result (A : Type) :=
| Ok (a : A)
| Raise (e : exn).
Arguments Ok {A} a.
Arguments Raise {A} e.

(** ** The world *)

(** [files] and [dirs] are keyed by the path string handed to the
    operating system: [dirs] is the set of strings that name a directory,
    [files] maps the strings that name a regular file to its content.
    [heap] is the store of Pillow image objects, a reference being an
    index into it; objects are never freed.  [stdout] is the list of
    lines printed so far. *)
Record World := {
  files : gmap string file;
  dirs : gset string;
  heap : list Image;
  stdout : list string;
}.

Definition set_files (f : gmap string file) (w : World) : World :=
  {| files := f; dirs := dirs w; heap := heap w; stdout := stdout w |}.
Definition set_dirs (d : gset string) (w : World) : World :=
  {| files := files w; dirs := d; heap := heap w; stdout := stdout w |}.
Definition set_heap (h : list Image) (w : World) : World :=
  {| files := files w; dirs := dirs w; heap := h; stdout := stdout w |}.
Definition set_stdout (o : list string) (w : World) : World :=
  {| files := files w; dirs := dirs w; heap := heap w; stdout := o |}.

(** ** The monad *)

Definition M (A : Type) : Type := World -> World * result A.

Definition ret {A} (a : A) : M A := fun w => (w, Ok a).

Definition bind {A B} (m : M A) (k : A -> M B) : M B :=
  fun w =>
    match m w with
    | (w', Ok a) => k a w'
    | (w', Raise e) => (w', Raise e)
    end.

Definition raise {A} (e : exn) : M A := fun w => (w, Raise e).

(** [try: m  except Exception: h] *)
Definition try_except {A} (m : M A) (h : M A) : M A :=
  fun w =>
    match m w with
    | (w', Ok a) => (w', Ok a)
    | (w', Raise _) => h w'
    end.

Declare Scope py_scope.
Delimit Scope py_scope with py.
Notation "x <- m ;; k" := (bind m (fun x => k))
  (at level 100, m at next level, right associativity) : py_scope.
Notation "m ;;; k" := (bind m (fun _ => k))
  (at level 100, right associativity) : py_scope.
Open Scope py_scope.

(** [for x in l: body x] *)
Fixpoint for_each {A} (l : list A) (body : A -> M unit) : M unit :=
  match l with
  | [] => ret tt
  | x :: l' => body x ;;; for_each l' body
  end.

(** [[f x for x in l]] *)
Fixpoint comprehension {A B} (l : list A) (f : A -> M B) : M (list B) :=
  match l with
  | [] => ret []
  | x :: l' => y <- f x ;; ys <- comprehension l' f ;; ret (y :: ys)
  end.

(** [print(line)] *)
Definition print (line : string) : M unit :=
  fun w => (set_stdout (stdout w ++ [line]) w, Ok tt).

(** Allocation of a new image object; returns its reference. *)
Definition alloc (im : Image) : M nat :=
  fun w => (set_heap (heap w ++ [im]) w, Ok (length (heap w))).

(** Reading through a reference.  A reference obtained from [alloc] is
    always bound; the error branch is there to keep the function total. *)
Definition deref (r : nat) : M Image :=
  fun w =>
    match heap w !! r with
    | Some im => (w, Ok im)
    | None => (w, Raise (SystemError "unbound reference"))
    end.

(** [os.path.exists(p)] *)
Definition os_path_exists (p : string) : M bool :=
  fun w => (w, Ok (bool_decide (p ∈ dom (files w)) || bool_decide (p ∈ dirs w))).

(** [os.makedirs(name, exist_ok=True)]: afterwards [name] and every
    ancestor of it name a directory.  It raises when [name] or one of its
    ancestors is a regular file, and is silent when [name] already is a
    directory. *)
Definition os_makedirs (name : string) : M unit :=
  fun w =>
    match List.find (fun a => bool_decide (a ∈ dom (files w)))
                    (posixpath.ancestors name) with
    | Some a =>
        (w, Raise (if String.eqb a name then FileExistsError a
                   else NotADirectoryError a))
    | None =>
        (set_dirs (dirs w ∪ list_to_set (posixpath.ancestors name)) w, Ok tt)
    end.

(** ** Pillow *)

(** Keyword arguments of [Image.save] that a save handler reads from
    [im.encoderinfo]: [sizes] and [append_images]. *)
Record encoderinfo := {
  sizes : option (list (Z * Z));
  append_images : list nat;
}.

Definition no_params : encoderinfo :=
  {| sizes := None; append_images := [] |}.

(** Order of Python tuples of two integers. *)
Definition size_le (a b : Z * Z) : Prop :=
  fst a < fst b \/ (fst a = fst b /\ snd a <= snd b).

#[global] Instance size_le_dec : RelDecision size_le.
Proof. intros a b. unfold size_le. apply _. Defined.

(** [sorted(set(sizes))] *)
Definition sorted_set (l : list (Z * Z)) : list (Z * Z) :=
  merge_sort size_le (remove_dups l).

Definition ico_default_sizes : list (Z * Z) :=
  [(16, 16); (24, 24); (32, 32); (48, 48); (64, 64); (128, 128); (256, 256)].

(** ** A sample environment

    A concrete script directory, decoder and pixel kernels, and a few
    worlds, on which the statements below are evaluated. *)

Module Sample.

Definition script_dir : string := "/repo/src-tauri/icons".

Definition source_path : string := "/repo/src-tauri/icons/../../../logo.png".

(** A decoder that identifies PNG files only. *)
Definition decode (f : file) : option Image :=
  match f with
  | PNG_file im => Some im
  | _ => None
  end.

Definition convert_data (im : Image) (m : mode) : list Z :=
  match im_mode im, m with
  | RGB, RGBA => im_data im ++ [255]
  | _, _ => im_data im
  end.

(** A one-pixel stand-in for the resampling kernel. *)
Definition resample_data (f : filter) (im : Image) (size : Z * Z) : list Z :=
  take 4 (im_data im).

Definition ico_scaled (provided : list Image) (size : Z * Z) : Image :=
  {| im_size := size; im_mode := RGBA; im_data := [] |}.

Definition no_fault (p : string) : option exn := None.

(** An allocator that never runs out of memory. *)
Definition ample_memory (size : Z * Z) : bool := false.

(** Writing [icon.icns] fails, every other path is fine. *)
Definition icns_fault (p : string) : option exn :=
  if String.eqb p "/repo/src-tauri/icons/icon.icns"
  then Some (OSError "No space left on device") else None.

Definition logo : Image :=
  {| im_size := (1024, 1024); im_mode := RGB; im_data := [10; 20; 30] |}.

(** A 20x10 source: smaller than every PNG target and not square. *)
Definition small_logo : Image :=
  {| im_size := (20, 10); im_mode := RGBA; im_data := [1; 2; 3; 4] |}.

Definition world_with (src : file) : World :=
  {| files := {[ source_path := src ]};
     dirs := {[ script_dir ]};
     heap := [];
     stdout := [] |}.

Definition world : World := world_with (PNG_file logo).

Definition small_world : World := world_with (PNG_file small_logo).


(** No source file at all. *)
Definition empty_world : World :=
  {| files := ∅; dirs := {[ script_dir ]}; heap := []; stdout := [] |}.

(** A store holding the decoded source only. *)
Definition loaded_world : World :=
  {| files := ∅; dirs := {[ script_dir ]};
     heap := [small_logo]; stdout := [] |}.

(** The source path names a directory. *)
Definition directory_world : World :=
  {| files := ∅; dirs := {[ script_dir; source_path ]};
     heap := []; stdout := [] |}.

Definition assets_path : string := "/repo/src-tauri/icons/../../src/assets".

(** The directory of the front-end asset is a regular file. *)
Definition blocked_world : World :=
  {| files := {[ source_path := PNG_file logo; assets_path := Blob [] ]};
     dirs := {[ script_dir ]}; heap := []; stdout := [] |}.

(** Writing [128x128.png] fails, every other path is fine. *)
Definition png_fault (p : string) : option exn :=
  if String.eqb p "/repo/src-tauri/icons/128x128.png"
  then Some (OSError "Disk quota exceeded") else None.


End Sample.

Section Generate.

(** [os.path.dirname(os.path.abspath(__file__))] *)
Variable SCRIPT_DIR : string.

(** Pillow's format identification and decoding of a file's content;
    [None] when no decoder identifies it. *)
Variable decode : file -> option Image.

(** Pixel data computed by [Image.convert] and by [Image.resize]. *)
Variable convert_data : Image -> mode -> list Z.
Variable resample_data : filter -> Image -> Z * Z -> list Z.

(** Whether the image core runs out of memory when it allocates a bitmap
    of this size, for a bitmap larger than [ROUTINE_EDGE] in width or
    height. *)
Variable out_of_memory : Z * Z -> bool.

(** Frame the ICO save handler scales down itself for a requested size
    that none of the provided images has. *)
Variable ico_scaled : list Image -> Z * Z -> Image.

(** Whether the running Pillow registers a save handler for ICNS. *)
Variable icns_registered : bool.

(** Failures of the environment while the data is written to a file
    that has been opened (disk full, quota exceeded, I/O error), per
    path. *)
Variable io_fault : string -> option exn.

(** [Image.open(fp)] *)
Definition Image_open (fp : string) : M nat :=
  fun w =>
    match files w !! fp with
    | None =>
        (w, Raise (if bool_decide (fp ∈ dirs w) then IsADirectoryError fp
                   else FileNotFoundError fp))
    | Some f =>
        match decode f with
        | None => (w, Raise (UnidentifiedImageError fp))
        | Some im => alloc im w
        end
    end.

(** Bitmap of [im.convert(m)]: same size, mode [m]. *)
Definition converted (im : Image) (m : mode) : Image :=
  {| im_size := im_size im; im_mode := m; im_data := convert_data im m |}.

(** Bitmap of [im.resize(size, resample)]: the requested size, the
    mode of [im]. *)
Definition resized (im : Image) (size : Z * Z) (resample : filter) : Image :=
  {| im_size := size; im_mode := im_mode im;
     im_data := resample_data resample im size |}.

(** [self.convert(mode)] returns a new image object. *)
Definition Image_convert (self : nat) (m : mode) : M nat :=
  im <- deref self ;;
  alloc (converted im m).

(** The range of a C [int], in which the image core takes a size. *)
Definition INT_MAX : Z := 2147483647.
Definition INT_MIN : Z := -2147483648.

Definition fits_int (n : Z) : bool := (INT_MIN <=? n) && (n <=? INT_MAX).

(** The largest edge the script asks for.  A bitmap of at most this
    width and height is taken to be always served by the allocator;
    for a larger one it is up to the environment. *)
Definition ROUTINE_EDGE : Z := 512.

Definition allocation_fails (size : Z * Z) : bool :=
  ((fst size >? ROUTINE_EDGE) || (snd size >? ROUTINE_EDGE))
  && out_of_memory size.

(** [self.resize(size, resample)] returns a new image object.  The size
    is handed to the image core as two C [int]s, which raises
    [OverflowError] outside their range; the core refuses a size below
    one, and raises [MemoryError] when it cannot allocate the result. *)
Definition Image_resize (self : nat) (size : Z * Z) (resample : filter)
  : M nat :=
  im <- deref self ;;
  if negb (fits_int (fst size) && fits_int (snd size))
  then raise (OverflowError "Python int too large to convert to C int")
  else if (fst size <? 1) || (snd size <? 1)
  then raise (ValueError "height and width must be > 0")
  else if allocation_fails size
  then raise MemoryError
  else alloc (resized im size resample).

(** [format.upper() in SAVE] *)
Definition SAVE (f : format) : bool :=
  match f with
  | PNG | ICO => true
  | ICNS => icns_registered
  end.

(** Frames the ICO save handler embeds, [im] being the image [save]
    is called on: a requested size larger than [im], or than 256, is
    skipped; for the others the first provided image of that size is
    taken. *)
Definition ico_frames (im : Image) (requested : list (Z * Z))
           (appended : list Image) : list Image :=
  let provided_ims := im :: appended in
  let '(width, height) := im_size im in
  flat_map
    (fun size =>
       if (fst size >? width) || (snd size >? height)
          || (fst size >? 256) || (snd size >? 256)
       then []
       else match List.find (fun p => size_eqb (im_size p) size) provided_ims with
            | Some provided_im => [provided_im]
            | None => [ico_scaled provided_ims size]
            end)
    (sorted_set requested).

(** What the save handler of a format writes for [im]. *)
Definition save_handler (f : format) (im : Image) (info : encoderinfo)
  : M file :=
  match f with
  | PNG => ret (PNG_file im)
  | ICNS => ret (ICNS_file im)
  | ICO =>
      appended <- comprehension (append_images info) deref ;;
      ret (ICO_file (ico_frames im (default ico_default_sizes (sizes info))
                                appended))
  end.

(** [open(fp, "w+b")]: the path must not name a directory and its
    parent directory must exist; the file is created or truncated. *)
Definition open_for_writing (fp : string) : M unit :=
  fun w =>
    if bool_decide (fp ∈ dirs w) then (w, Raise (IsADirectoryError fp))
    else if negb (bool_decide (posixpath.dirname fp ∈ dirs w))
    then (w, Raise (FileNotFoundError fp))
    else (set_files (<[fp := Blob []]> (files w)) w, Ok tt).

(** Writing the encoded content through the open file.  A failure of
    the environment leaves an initial part of the content behind. *)
Definition write_file (fp : string) (content : file) : M unit :=
  fun w =>
    match io_fault fp with
    | Some e => (set_files (<[fp := Partial content]> (files w)) w, Raise e)
    | None => (set_files (<[fp := content]> (files w)) w, Ok tt)
    end.

(** [os.remove(fp)] *)
Definition os_remove (fp : string) : M unit :=
  fun w => (set_files (delete fp (files w)) w, Ok tt).

(** [try: m  except Exception: cleanup; raise] *)
Definition on_exception {A} (m : M A) (cleanup : M unit) : M A :=
  fun w =>
    match m w with
    | (w', Ok a) => (w', Ok a)
    | (w', Raise e) => (fst (cleanup w'), Raise e)
    end.

(** [self.save(fp, format=..., **params)].  The handler is looked up
    before the file is opened; a failure of the handler removes the
    file if this call created it and leaves what was written of it
    otherwise. *)
Definition Image_save (self : nat) (fp : string) (f : format)
           (params : encoderinfo) : M unit :=
  im <- deref self ;;
  if negb (SAVE f) then raise (KeyError (format_name f)) else
  found <- os_path_exists fp ;;
  let created := negb found in
  open_for_writing fp ;;;
  on_exception
    (content <- save_handler f im params ;; write_file fp content)
    (if created then os_remove fp else ret tt).

(** ** The script *)

Definition SOURCE : string :=
  posixpath.join SCRIPT_DIR [".."; ".."; ".."; "logo.png"].

Definition PNG_SIZES : list (string * Z) :=
  [("32x32.png", 32); ("128x128.png", 128);
   ("128x128@2x.png", 256); ("icon.png", 512)].

Definition FRONTEND_ICON : string :=
  posixpath.join SCRIPT_DIR [".."; ".."; "src"; "assets"; "icon.png"].

Definition resize (source_img : nat) (size : Z) : M nat :=
  Image_resize source_img (size, size) LANCZOS.

(** [', '.join(str(s) for s in l)] *)
Fixpoint comma_join (l : list Z) : string :=
  match l with
  | [] => ""
  | [s] => pretty s
  | s :: l' => pretty s +:+ ", " +:+ comma_join l'
  end.

Definition ico_sizes : list Z := [16; 24; 32; 48; 64; 128; 256].

(** [source = Image.open(SOURCE).convert("RGBA")] and the two lines
    printed after it. *)
Definition load_source : M nat :=
  opened <- Image_open SOURCE ;;
  source <- Image_convert opened RGBA ;;
  im <- deref source ;;
  print ("Source: " +:+ SOURCE +:+ " (" +:+ pretty (width im) +:+ "x"
         +:+ pretty (height im) +:+ ")") ;;;
  print "" ;;;
  ret source.

(** [# Generate PNGs] *)
Definition generate_pngs (source : nat) : M unit :=
  for_each PNG_SIZES (fun '(filename, size) =>
    let output_path := posixpath.join SCRIPT_DIR [filename] in
    img <- resize source size ;;
    Image_save img output_path PNG no_params ;;;
    print ("  " +:+ filename +:+ " (" +:+ pretty size +:+ "x"
           +:+ pretty size +:+ ")")).

(** [# Generate frontend asset] *)
Definition generate_frontend_asset (source : nat) : M unit :=
  img <- resize source 256 ;;
  os_makedirs (posixpath.dirname FRONTEND_ICON) ;;;
  Image_save img FRONTEND_ICON PNG no_params ;;;
  print "  src/assets/icon.png (256x256)".

Definition ico_path : string := posixpath.join SCRIPT_DIR ["icon.ico"].

(** [# Generate ICO (multiple sizes)] *)
Definition generate_ico (source : nat) : M unit :=
  ico_images <- comprehension ico_sizes (resize source) ;;
  match ico_images with
  | [] => raise (IndexError "list index out of range")
  | first :: rest =>
      Image_save first ico_path ICO
        {| sizes := Some (map (fun s => (s, s)) ico_sizes);
           append_images := rest |}
  end ;;;
  print ("  icon.ico (" +:+ comma_join ico_sizes +:+ ")").

Definition icns_path : string := posixpath.join SCRIPT_DIR ["icon.icns"].

(** [# Generate ICNS] *)
Definition generate_icns (source : nat) : M unit :=
  try_except
    (Image_save source icns_path ICNS no_params ;;;
     print "  icon.icns")
    (print "  Warning: Cannot generate .icns (Pillow ICNS support missing)").

Definition main : M unit :=
  found <- os_path_exists SOURCE ;;
  if negb found then
    print ("ERROR: Source not found: " +:+ SOURCE)
  else
    source <- load_source ;;
    generate_pngs source ;;;
    generate_frontend_asset source ;;;
    generate_ico source ;;;
    generate_icns source ;;;
    print "" ;;;
    print "Done. All icons generated from logo.png".


(** ** Paths of the script *)

(** The separator [posixpath.join] puts after [a]. *)
Definition sep_after (a : string) : string :=
  if posixpath.is_empty a || posixpath.endswith_sep a then "" else "/".

(** [SCRIPT_DIR] joined with a relative path. *)
Definition under (rel : string) : string :=
  SCRIPT_DIR +:+ sep_after SCRIPT_DIR +:+ rel.

(** [x] is an initial segment of [p]. *)
Definition is_prefix (x p : string) : Prop := exists t, p = x +:+ t.

(** The PNG files of the size table, and all the files the script
    writes into its own directory. *)
Definition png_paths : list string :=
  map (fun '(filename, _) => posixpath.join SCRIPT_DIR [filename]) PNG_SIZES.

Definition script_outputs : list string :=
  png_paths ++ [ico_path; icns_path].

(** The steps of [main] between the existence check and the ICNS
    step, returning the [source] image they share. *)
Definition before_icns : M nat :=
  source <- load_source ;;
  generate_pngs source ;;;
  generate_frontend_asset source ;;;
  generate_ico source ;;;
  ret source.

(** The steps of [main] from the ICNS step on. *)
Definition from_icns (source : nat) : M unit :=
  generate_icns source ;;;
  print "" ;;;
  print "Done. All icons generated from logo.png".

Definition ICNS_WARNING : string :=
  "  Warning: Cannot generate .icns (Pillow ICNS support missing)".

Definition DONE : string := "Done. All icons generated from logo.png".

(** A path that can be opened for writing and written without a
    failure of the environment. *)
Definition writable (w : World) (p : string) : Prop :=
  (p ∉ dirs w) /\ (posixpath.dirname p ∈ dirs w) /\ io_fault p = None.

(** [os.makedirs(name, exist_ok=True)] can succeed: neither [name]
    nor an ancestor of it is a regular file. *)
Definition can_makedirs (w : World) (name : string) : Prop :=
  Forall (fun a => a ∉ dom (files w)) (posixpath.ancestors name).

(** The environment lets every step before the ICNS step succeed: the
    source file decodes to [img], the PNG and ICO paths are writable,
    and the front-end directory can be created and written into. *)
Record ready (w : World) (img : Image) : Prop := {
  ready_source : exists f, files w !! SOURCE = Some f /\ decode f = Some img;
  ready_outputs : Forall (writable w) (png_paths ++ [ico_path]);
  ready_frontend_dir : can_makedirs w (posixpath.dirname FRONTEND_ICON);
  ready_frontend_not_dir : FRONTEND_ICON ∉ dirs w;
  ready_frontend_fault : io_fault FRONTEND_ICON = None;
}.

(** The bitmap [resize] derives from [im] for edge length [n]. *)
Definition derived (im : Image) (n : Z) : Image :=
  resized im (n, n) LANCZOS.

(** The world [before_icns] leaves when every step succeeds, [img]
    being the decoded source file. *)
Definition world_before_icns (w : World) (img : Image) : World :=
  let source := converted img RGBA in
  {| files :=
       <[ico_path := ICO_file [derived source 16]]>
       (<[FRONTEND_ICON := PNG_file (derived source 256)]>
       (<[posixpath.join SCRIPT_DIR ["icon.png"] := PNG_file (derived source 512)]>
       (<[posixpath.join SCRIPT_DIR ["128x128@2x.png"] := PNG_file (derived source 256)]>
       (<[posixpath.join SCRIPT_DIR ["128x128.png"] := PNG_file (derived source 128)]>
       (<[posixpath.join SCRIPT_DIR ["32x32.png"] := PNG_file (derived source 32)]>
       (files w))))));
     dirs := dirs w ∪ list_to_set
               (posixpath.ancestors (posixpath.dirname FRONTEND_ICON));
     heap := heap w ++
       [img; source;
        derived source 32; derived source 128; derived source 256;
        derived source 512; derived source 256]
       ++ map (derived source) ico_sizes;
     stdout := stdout w ++
       ["Source: " +:+ SOURCE +:+ " (" +:+ pretty (width source) +:+ "x"
        +:+ pretty (height source) +:+ ")"; "";
        "  32x32.png (32x32)"; "  128x128.png (128x128)";
        "  128x128@2x.png (256x256)"; "  icon.png (512x512)";
        "  src/assets/icon.png (256x256)";
        "  icon.ico (16, 24, 32, 48, 64, 128, 256)"] |}.

(** Every path the script writes. *)
Definition all_outputs : list string := FRONTEND_ICON :: script_outputs.

(** [w'] is [w] after writes at paths of [ps] only, with directories
    added, image objects allocated and lines printed, and nothing else:
    no other path changes, no directory disappears, no object of the
    store changes, no printed line is taken back. *)
Definition extends (ps : list string) (w w' : World) : Prop :=
  (forall q, ~ In q ps -> files w' !! q = files w !! q)
  /\ dirs w ⊆ dirs w'
  /\ (exists h, heap w' = heap w ++ h)
  /\ (exists o, stdout w' = stdout w ++ o).

(** Whatever [m] does and however it ends, it stays within [extends]. *)
Definition confined {A} (ps : list string) (m : M A) : Prop :=
  forall w w' r, m w = (w', r) -> extends ps w w'.


Set Default Proof Using "Type".

Lemma append_cons (x : ascii) (a b : string) :
  String x a +:+ b = String x (a +:+ b).
Proof. reflexivity. Qed.

Lemma append_nil (b : string) : "" +:+ b = b.
Proof. reflexivity. Qed.

Lemma append_assoc (a b c : string) : (a +:+ b) +:+ c = a +:+ (b +:+ c).
Proof.
  induction a as [|x a IH]; [reflexivity|].
  rewrite !append_cons. now rewrite IH.
Qed.

Lemma length_append (a b : string) :
  String.length (a +:+ b) = (String.length a + String.length b)%nat.
Proof.
  induction a as [|x a IH]; [reflexivity|].
  rewrite append_cons. simpl. now rewrite IH.
Qed.

Lemma is_empty_append (a b : string) :
  posixpath.is_empty b = false -> posixpath.is_empty (a +:+ b) = false.
Proof. destruct a; [rewrite append_nil; auto | reflexivity]. Qed.

Lemma endswith_sep_append (a b : string) :
  posixpath.is_empty b = false ->
  posixpath.endswith_sep (a +:+ b) = posixpath.endswith_sep b.
Proof.
  intros Hb. induction a as [|x a IH]; [reflexivity|].
  rewrite append_cons. simpl. rewrite IH.
  destruct (a +:+ b) eqn:E; [|reflexivity].
  destruct a; [rewrite append_nil in E; subst b; discriminate Hb
              | discriminate E].
Qed.

Lemma join2_relative (a b : string) :
  posixpath.startswith_sep b = false ->
  posixpath.join2 a b = a +:+ sep_after a +:+ b.
Proof.
  intros Hb. unfold posixpath.join2, sep_after. rewrite Hb.
  destruct (posixpath.is_empty a || posixpath.endswith_sep a); reflexivity.
Qed.

(** Joining a further component onto a path that ends in a name. *)
Lemma join2_after_name (a b c : string) :
  posixpath.is_empty b = false ->
  posixpath.endswith_sep b = false ->
  posixpath.startswith_sep c = false ->
  posixpath.join2 (a +:+ b) c = a +:+ (b +:+ "/" +:+ c).
Proof.
  intros Hb He Hc. rewrite join2_relative by exact Hc.
  unfold sep_after.
  rewrite is_empty_append by exact Hb.
  rewrite endswith_sep_append by exact Hb.
  rewrite He. simpl. now rewrite append_assoc.
Qed.

Lemma join_one (f : string) :
  posixpath.startswith_sep f = false ->
  posixpath.join SCRIPT_DIR [f] = under f.
Proof. intros Hf. unfold under. simpl. now apply join2_relative. Qed.

Lemma SOURCE_under : SOURCE = under "../../../logo.png".
Proof.
  unfold SOURCE, posixpath.join, under. simpl.
  rewrite (join2_relative SCRIPT_DIR "..") by reflexivity.
  rewrite <- append_assoc.
  rewrite !join2_after_name by reflexivity.
  rewrite !append_assoc. reflexivity.
Qed.

Lemma FRONTEND_ICON_under : FRONTEND_ICON = under "../../src/assets/icon.png".
Proof.
  unfold FRONTEND_ICON, posixpath.join, under. simpl.
  rewrite (join2_relative SCRIPT_DIR "..") by reflexivity.
  rewrite <- append_assoc.
  rewrite !join2_after_name by reflexivity.
  rewrite !append_assoc. reflexivity.
Qed.

Lemma ico_path_under : ico_path = under "icon.ico".
Proof. now apply join_one. Qed.

Lemma icns_path_under : icns_path = under "icon.icns".
Proof. now apply join_one. Qed.

Lemma under_inj (a b : string) : under a = under b -> a = b.
Proof.
  unfold under. intros H.
  apply String.app_inj in H. now apply String.app_inj in H.
Qed.

Lemma under_prefix (a b : string) :
  is_prefix (under a) (under b) -> is_prefix a b.
Proof.
  unfold under. intros [t H]. exists t.
  rewrite !append_assoc in H.
  apply String.app_inj in H. now apply String.app_inj in H.
Qed.


Lemma is_prefix_refl (p : string) : is_prefix p p.
Proof. exists "". induction p as [|x p IH]; [reflexivity|]. rewrite append_cons. now f_equal. Qed.

Lemma is_prefix_trans (a b c : string) :
  is_prefix a b -> is_prefix b c -> is_prefix a c.
Proof.
  intros [t ->] [u ->]. exists (t +:+ u). apply append_assoc.
Qed.

Lemma is_prefix_length (a b : string) :
  is_prefix a b -> (String.length a <= String.length b)%nat.
Proof. intros [t ->]. rewrite length_append. lia. Qed.

Lemma is_prefix_cons (x : ascii) (a b : string) :
  is_prefix a b -> is_prefix (String x a) (String x b).
Proof. intros [t ->]. exists t. reflexivity. Qed.

Lemma is_prefix_nil (p : string) : is_prefix "" p.
Proof. exists p. reflexivity. Qed.

Lemma rstrip_sep_prefix (s : string) : is_prefix (posixpath.rstrip_sep s) s.
Proof.
  induction s as [|x s IH]; simpl; [apply is_prefix_nil|].
  destruct (posixpath.is_sep x && posixpath.is_empty (posixpath.rstrip_sep s)).
  - apply is_prefix_nil.
  - now apply is_prefix_cons.
Qed.

Lemma head_of_prefix (p : string) : is_prefix (posixpath.head_of p) p.
Proof.
  induction p as [|x p IH]; [apply is_prefix_nil|].
  cbn [posixpath.head_of].
  destruct (posixpath.has_sep (String x p)).
  - now apply is_prefix_cons.
  - apply is_prefix_nil.
Qed.

Lemma dirname_head_of (p : string) :
  is_prefix (posixpath.dirname p) (posixpath.head_of p).
Proof.
  unfold posixpath.dirname.
  destruct (negb (posixpath.is_empty (posixpath.head_of p))
            && negb (posixpath.is_empty
                       (posixpath.rstrip_sep (posixpath.head_of p)))).
  - apply rstrip_sep_prefix.
  - apply is_prefix_refl.
Qed.

Lemma dirname_prefix (p : string) : is_prefix (posixpath.dirname p) p.
Proof.
  eapply is_prefix_trans; [apply dirname_head_of | apply head_of_prefix].
Qed.

Lemma lineage_prefix (fuel : nat) (p x : string) :
  In x (posixpath.lineage fuel p) -> is_prefix x p.
Proof.
  revert p. induction fuel as [|n IH]; intros p; cbn [posixpath.lineage].
  - intros [<-|[]]. apply is_prefix_refl.
  - destruct (posixpath.is_empty (posixpath.dirname p)
              || String.eqb (posixpath.dirname p) p).
    + intros [<-|[]]. apply is_prefix_refl.
    + intros [<-|Hin]; [apply is_prefix_refl|].
      eapply is_prefix_trans; [apply IH, Hin | apply dirname_prefix].
Qed.

Lemma ancestors_prefix (p x : string) :
  In x (posixpath.ancestors p) -> is_prefix x p.
Proof. apply lineage_prefix. Qed.

(** The head of a path that ends in a name is strictly shorter. *)
Lemma head_of_shorter (p : string) :
  posixpath.is_empty p = false ->
  posixpath.endswith_sep p = false ->
  (String.length (posixpath.head_of p) < String.length p)%nat.
Proof.
  induction p as [|x p IH]; [discriminate|].
  intros _ He. cbn [posixpath.head_of].
  destruct (posixpath.has_sep (String x p)) eqn:Hs; [|simpl; lia].
  destruct p as [|y p].
  - simpl in He, Hs. rewrite He in Hs. discriminate Hs.
  - simpl in He. specialize (IH eq_refl He).
    change (S (String.length (posixpath.head_of (String y p)))
            < S (String.length (String y p)))%nat.
    lia.
Qed.

Lemma dirname_shorter (p : string) :
  posixpath.is_empty p = false ->
  posixpath.endswith_sep p = false ->
  (String.length (posixpath.dirname p) < String.length p)%nat.
Proof.
  intros Hp He.
  pose proof (is_prefix_length _ _ (dirname_head_of p)).
  pose proof (head_of_shorter p Hp He). lia.
Qed.

(** No output of the script is turned into a directory by the
    [os.makedirs] call on the directory of [FRONTEND_ICON]. *)
Lemma FRONTEND_ICON_not_ancestor :
  ~ In FRONTEND_ICON (posixpath.ancestors (posixpath.dirname FRONTEND_ICON)).
Proof.
  intros Hin. apply ancestors_prefix, is_prefix_length in Hin.
  assert (String.length (posixpath.dirname FRONTEND_ICON)
          < String.length FRONTEND_ICON)%nat; [|lia].
  rewrite FRONTEND_ICON_under. unfold under. rewrite <- append_assoc.
  apply dirname_shorter.
  - apply is_empty_append. reflexivity.
  - rewrite endswith_sep_append; reflexivity.
Qed.

Lemma under_not_ancestor (rel : string) :
  ~ is_prefix rel "../../src/assets/icon.png" ->
  ~ In (under rel) (posixpath.ancestors (posixpath.dirname FRONTEND_ICON)).
Proof.
  intros Hrel Hin. apply Hrel, under_prefix.
  rewrite <- FRONTEND_ICON_under.
  eapply is_prefix_trans; [apply ancestors_prefix, Hin | apply dirname_prefix].
Qed.

Lemma script_outputs_under (p : string) :
  In p script_outputs ->
  exists rel, p = under rel /\ ~ is_prefix rel "../../src/assets/icon.png"
              /\ In rel ["32x32.png"; "128x128.png"; "128x128@2x.png";
                         "icon.png"; "icon.ico"; "icon.icns"].
Proof.
  unfold script_outputs, png_paths, PNG_SIZES, ico_path, icns_path.
  cbn [map app]. intros Hin.
  repeat (destruct Hin as [<-|Hin];
          [eexists; split; [now apply join_one|];
           split; [intros [t Ht]; discriminate Ht | cbn [In]; auto 10] |]).
  destruct Hin.
Qed.

Lemma script_outputs_not_ancestor (p : string) :
  In p script_outputs ->
  ~ In p (posixpath.ancestors (posixpath.dirname FRONTEND_ICON)).
Proof.
  intros (rel & -> & Hrel & _)%script_outputs_under.
  now apply under_not_ancestor.
Qed.

Lemma script_outputs_not_FRONTEND_ICON (p : string) :
  In p script_outputs -> p <> FRONTEND_ICON.
Proof.
  intros (rel & -> & _ & Hin)%script_outputs_under.
  rewrite FRONTEND_ICON_under. intros Heq%under_inj. subst rel.
  cbn [In] in Hin.
  repeat (destruct Hin as [Hin|Hin]; [discriminate Hin|]). exact Hin.
Qed.


(** ** One step at a time *)

Lemma bind_Ok {A B} (m : M A) (k : A -> M B) (w w1 : World) (a : A) :
  m w = (w1, Ok a) -> bind m k w = k a w1.
Proof. intros H. unfold bind. now rewrite H. Qed.

Lemma bind_Raise {A B} (m : M A) (k : A -> M B) (w w1 : World) (e : exn) :
  m w = (w1, Raise e) -> bind m k w = (w1, Raise e).
Proof. intros H. unfold bind. now rewrite H. Qed.

Lemma bind_assoc {A B C} (m : M A) (k : A -> M B) (h : B -> M C) (w : World) :
  bind (bind m k) h w = bind m (fun a => bind (k a) h) w.
Proof.
  unfold bind. destruct (m w) as [w1 [a|e]]; reflexivity.
Qed.

Lemma deref_Ok (w : World) (r : nat) (im : Image) :
  heap w !! r = Some im -> deref r w = (w, Ok im).
Proof. intros H. unfold deref. now rewrite H. Qed.

Lemma resize_Ok_general (w : World) (s : nat) (im : Image) (n : Z) :
  heap w !! s = Some im -> 1 <= n <= INT_MAX ->
  allocation_fails (n, n) = false ->
  resize s n w = (set_heap (heap w ++ [derived im n]) w, Ok (length (heap w))).
Proof.
  intros Hs Hn Ha. unfold resize, Image_resize.
  rewrite (bind_Ok _ _ _ _ _ (deref_Ok _ _ _ Hs)).
  cbn [fst snd]. rewrite Ha.
  replace (fits_int n) with true
    by (symmetry; unfold fits_int, INT_MIN, INT_MAX in *;
        apply andb_true_intro; split; apply Z.leb_le; lia).
  replace (n <? 1) with false by (symmetry; apply Z.ltb_ge; lia).
  reflexivity.
Qed.

Lemma resize_Ok (w : World) (s : nat) (im : Image) (n : Z) :
  heap w !! s = Some im -> 1 <= n <= ROUTINE_EDGE ->
  resize s n w = (set_heap (heap w ++ [derived im n]) w, Ok (length (heap w))).
Proof.
  intros Hs Hn. unfold ROUTINE_EDGE in Hn.
  apply resize_Ok_general; [exact Hs | unfold INT_MAX; lia |].
  unfold allocation_fails, ROUTINE_EDGE. cbn [fst snd].
  replace (n >? 512) with false
    by (symmetry; rewrite Z.gtb_ltb; apply Z.ltb_ge; lia).
  reflexivity.
Qed.

Lemma resize_Raise (w : World) (s : nat) (im : Image) (n : Z) :
  heap w !! s = Some im -> INT_MIN <= n < 1 ->
  resize s n w = (w, Raise (ValueError "height and width must be > 0")).
Proof.
  intros Hs Hn. unfold resize, Image_resize.
  rewrite (bind_Ok _ _ _ _ _ (deref_Ok _ _ _ Hs)).
  cbn [fst snd].
  replace (fits_int n) with true
    by (symmetry; unfold fits_int, INT_MIN, INT_MAX in *;
        apply andb_true_intro; split; apply Z.leb_le; lia).
  replace (n <? 1) with true by (symmetry; apply Z.ltb_lt; lia).
  reflexivity.
Qed.

Lemma resize_Overflow (w : World) (s : nat) (im : Image) (n : Z) :
  heap w !! s = Some im -> INT_MAX < n ->
  resize s n w
  = (w, Raise (OverflowError "Python int too large to convert to C int")).
Proof.
  intros Hs Hn. unfold resize, Image_resize.
  rewrite (bind_Ok _ _ _ _ _ (deref_Ok _ _ _ Hs)).
  cbn [fst snd].
  replace (fits_int n) with false; [reflexivity|].
  symmetry. unfold fits_int. apply andb_false_intro2, Z.leb_gt, Hn.
Qed.

Lemma comprehension_deref (w : World) (refs : list nat) (ims : list Image) :
  Forall2 (fun r im => heap w !! r = Some im) refs ims ->
  comprehension refs deref w = (w, Ok ims).
Proof.
  induction 1 as [|r im refs ims Hr _ IH]; [reflexivity|].
  cbn [comprehension].
  rewrite (bind_Ok _ _ _ _ _ (deref_Ok _ _ _ Hr)).
  rewrite (bind_Ok _ _ _ _ _ IH). reflexivity.
Qed.

Lemma comprehension_deref_state (w w1 : World) (refs : list nat)
      (c : result (list Image)) :
  comprehension refs deref w = (w1, c) -> w1 = w.
Proof.
  revert w1 c. induction refs as [|x l IH]; intros w1 c E.
  - inversion E. reflexivity.
  - cbn [comprehension] in E. unfold bind, ret in E.
    assert (Hd : exists r, deref x w = (w, r))
      by (unfold deref; destruct (heap w !! x); eauto).
    destruct Hd as [r Hd]. rewrite Hd in E.
    destruct r; [|inversion E; reflexivity].
    pose proof (IH (fst (comprehension l deref w))
                   (snd (comprehension l deref w))) as Hw.
    rewrite <- surjective_pairing in Hw. specialize (Hw eq_refl).
    destruct (comprehension l deref w) as [w2 [ys|e]];
      cbn [fst] in Hw; subst w2; inversion E; reflexivity.
Qed.

Lemma os_path_exists_false (w : World) (p : string) :
  files w !! p = None -> p ∉ dirs w -> os_path_exists p w = (w, Ok false).
Proof.
  intros Hf Hd. unfold os_path_exists.
  rewrite bool_decide_eq_false_2 by (now rewrite not_elem_of_dom).
  rewrite bool_decide_eq_false_2 by exact Hd. reflexivity.
Qed.

Lemma os_path_exists_file (w : World) (p : string) (f : file) :
  files w !! p = Some f -> os_path_exists p w = (w, Ok true).
Proof.
  intros Hf. unfold os_path_exists.
  rewrite bool_decide_eq_true_2; [reflexivity|].
  apply elem_of_dom. now exists f.
Qed.

(** What [Image.save] leaves at [fp]: the encoded content. *)
Lemma Image_save_Ok (w : World) (r : nat) (im : Image) (fp : string)
      (f : format) (params : encoderinfo) (content : file) :
  heap w !! r = Some im ->
  SAVE f = true ->
  (forall w0, heap w0 = heap w -> save_handler f im params w0 = (w0, Ok content)) ->
  writable w fp ->
  Image_save r fp f params w
  = (set_files (<[fp := content]> (files w)) w, Ok tt).
Proof.
  intros Hr Hf Hh (Hnd & Hpar & Hio). unfold Image_save.
  rewrite (bind_Ok _ _ _ _ _ (deref_Ok _ _ _ Hr)). rewrite Hf. cbn [negb].
  unfold bind at 1. unfold os_path_exists at 1.
  unfold bind at 1. unfold open_for_writing at 1.
  rewrite bool_decide_eq_false_2 by exact Hnd.
  rewrite bool_decide_eq_true_2 by exact Hpar. cbn [negb].
  unfold on_exception.
  erewrite bind_Ok; [|apply Hh; reflexivity].
  unfold write_file. rewrite Hio.
  cbn [files set_files dirs heap stdout]. rewrite insert_insert_eq. reflexivity.
Qed.

(** A save for which no handler is registered raises before the file
    is touched. *)
Lemma Image_save_unregistered (w : World) (r : nat) (im : Image)
      (fp : string) (f : format) (params : encoderinfo) :
  heap w !! r = Some im ->
  SAVE f = false ->
  Image_save r fp f params w = (w, Raise (KeyError (format_name f))).
Proof.
  intros Hr Hf. unfold Image_save.
  rewrite (bind_Ok _ _ _ _ _ (deref_Ok _ _ _ Hr)). rewrite Hf. reflexivity.
Qed.

(** Whatever [Image.save] does, it prints nothing, allocates nothing,
    creates no directory and touches no path but [fp]. *)
Lemma Image_save_frame (w w' : World) (r : nat) (fp : string)
      (f : format) (params : encoderinfo) (res : result unit) :
  Image_save r fp f params w = (w', res) ->
  stdout w' = stdout w /\ heap w' = heap w /\ dirs w' = dirs w
  /\ forall q, q <> fp -> files w' !! q = files w !! q.
Proof.
  unfold Image_save, bind, deref, raise, os_path_exists, open_for_writing,
    on_exception, write_file, os_remove, ret.
  intros H.
  destruct (heap w !! r) as [im|]; [|now inversion H].
  destruct (negb (SAVE f)); [now inversion H|].
  destruct (bool_decide (fp ∈ dirs w)); [now inversion H|].
  destruct (negb (bool_decide (posixpath.dirname fp ∈ dirs w)));
    [now inversion H|].
  assert (Hh : exists c,
    save_handler f im params (set_files (<[fp:=Blob []]> (files w)) w)
    = (set_files (<[fp:=Blob []]> (files w)) w, c)).
  { destruct f; unfold save_handler, ret, bind; eauto.
    destruct (comprehension (append_images params) deref
                (set_files (<[fp:=Blob []]> (files w)) w)) as [w1 c] eqn:E.
    apply comprehension_deref_state in E as Hw. subst w1.
    destruct c; eauto. }
  destruct Hh as [c Hh]. unfold bind in H. rewrite Hh in H.
  assert (Hw : exists F, w' = set_files F w
                         /\ forall q, q <> fp -> F !! q = files w !! q).
  { destruct c as [content|e]; [destruct (io_fault fp)|];
      try destruct (bool_decide (fp ∈ dom (files w)));
      inversion H; subst;
      cbn [fst negb orb set_files files dirs heap stdout];
      eexists; (split; [reflexivity|]); intros q Hq;
      rewrite ?lookup_delete_ne, ?lookup_insert_ne by congruence;
      reflexivity. }
  destruct Hw as (F & -> & HF). cbn [set_files files dirs heap stdout].
  repeat split; exact HF.
Qed.


(** ** One block at a time *)

Ltac wsimpl :=
  cbn [files dirs heap stdout set_files set_dirs set_heap set_stdout].

Ltac heap_lookup :=
  wsimpl;
  first [ eassumption
        | apply list_lookup_middle; reflexivity
        | apply lookup_app_l_Some; heap_lookup ].

Ltac writable_now :=
  match goal with
  | H : writable _ ?p |- writable _ ?p =>
      destruct H as (? & ? & ?); repeat split; wsimpl; assumption
  end.

Ltac step_with lem := erewrite bind_Ok; [| apply lem ].

Ltac step_resize :=
  erewrite bind_Ok;
  [| apply resize_Ok; [heap_lookup | unfold ROUTINE_EDGE in *; lia] ].

Ltac step_save_png :=
  erewrite bind_Ok;
  [| eapply Image_save_Ok with (content := PNG_file _);
     [heap_lookup | reflexivity | intros; reflexivity | writable_now] ].

Ltac step_print := erewrite bind_Ok; [| reflexivity ].

Lemma load_source_Ok (w : World) (f : file) (img : Image) :
  files w !! SOURCE = Some f -> decode f = Some img ->
  load_source w
  = ({| files := files w; dirs := dirs w;
        heap := heap w ++ [img; converted img RGBA];
        stdout := stdout w ++
          ["Source: " +:+ SOURCE +:+ " (" +:+ pretty (width img) +:+ "x"
           +:+ pretty (height img) +:+ ")"; ""] |},
     Ok (S (length (heap w)))).
Proof.
  intros Hf Hd. unfold load_source.
  assert (Ho : Image_open SOURCE w
               = (set_heap (heap w ++ [img]) w, Ok (length (heap w)))).
  { unfold Image_open. rewrite Hf, Hd. reflexivity. }
  rewrite (bind_Ok _ _ _ _ _ Ho).
  assert (Hc : Image_convert (length (heap w)) RGBA (set_heap (heap w ++ [img]) w)
               = (set_heap ((heap w ++ [img]) ++ [converted img RGBA]) w,
                  Ok (S (length (heap w))))).
  { unfold Image_convert. erewrite bind_Ok; [|apply deref_Ok; heap_lookup].
    unfold alloc. wsimpl. rewrite length_app. cbn [length].
    replace (length (heap w) + 1)%nat with (S (length (heap w))) by lia.
    reflexivity. }
  rewrite (bind_Ok _ _ _ _ _ Hc).
  erewrite bind_Ok;
    [| apply deref_Ok with (im := converted img RGBA); wsimpl;
       apply list_lookup_middle; rewrite length_app; cbn [length]; lia ].
  unfold bind, print, ret. wsimpl. rewrite <- !app_assoc. reflexivity.
Qed.

Lemma generate_pngs_Ok (w : World) (source : nat) (im : Image) :
  heap w !! source = Some im ->
  Forall (writable w) png_paths ->
  generate_pngs source w
  = ({| files :=
          <[posixpath.join SCRIPT_DIR ["icon.png"] := PNG_file (derived im 512)]>
          (<[posixpath.join SCRIPT_DIR ["128x128@2x.png"] := PNG_file (derived im 256)]>
          (<[posixpath.join SCRIPT_DIR ["128x128.png"] := PNG_file (derived im 128)]>
          (<[posixpath.join SCRIPT_DIR ["32x32.png"] := PNG_file (derived im 32)]>
          (files w))));
        dirs := dirs w;
        heap := heap w ++ [derived im 32; derived im 128;
                           derived im 256; derived im 512];
        stdout := stdout w ++
          ["  32x32.png (32x32)"; "  128x128.png (128x128)";
           "  128x128@2x.png (256x256)"; "  icon.png (512x512)"] |},
     Ok tt).
Proof.
  intros Hs Hw. unfold png_paths, PNG_SIZES in Hw. cbn [map] in Hw.
  apply Forall_cons in Hw as [W1 Hw]. apply Forall_cons in Hw as [W2 Hw].
  apply Forall_cons in Hw as [W3 Hw]. apply Forall_cons in Hw as [W4 _].
  unfold generate_pngs, PNG_SIZES. cbn [for_each].
  do 4 (rewrite bind_assoc; step_resize; rewrite bind_assoc; step_save_png;
        step_print; wsimpl).
  unfold ret. rewrite <- !app_assoc. reflexivity.
Qed.


Lemma find_in_dom_None (m : gmap string file) (l : list string) :
  Forall (fun a => a ∉ dom m) l ->
  List.find (fun a => bool_decide (a ∈ dom m)) l = None.
Proof.
  induction 1 as [|a l Ha _ IH]; [reflexivity|].
  cbn [List.find]. now rewrite bool_decide_eq_false_2.
Qed.

Lemma os_makedirs_Ok (w : World) (name : string) :
  can_makedirs w name ->
  os_makedirs name w
  = (set_dirs (dirs w ∪ list_to_set (posixpath.ancestors name)) w, Ok tt).
Proof.
  intros H. unfold os_makedirs. now rewrite find_in_dom_None.
Qed.

Lemma lineage_self (fuel : nat) (p : string) : In p (posixpath.lineage fuel p).
Proof.
  destruct fuel; cbn [posixpath.lineage]; [now left|].
  destruct (posixpath.is_empty (posixpath.dirname p)
            || String.eqb (posixpath.dirname p) p); now left.
Qed.

Lemma ancestors_self (p : string) : p ∈ posixpath.ancestors p.
Proof. apply list_elem_of_In, lineage_self. Qed.

Lemma generate_frontend_asset_Ok (w : World) (source : nat) (im : Image) :
  heap w !! source = Some im ->
  can_makedirs w (posixpath.dirname FRONTEND_ICON) ->
  FRONTEND_ICON ∉ dirs w ->
  io_fault FRONTEND_ICON = None ->
  generate_frontend_asset source w
  = ({| files := <[FRONTEND_ICON := PNG_file (derived im 256)]> (files w);
        dirs := dirs w ∪ list_to_set
                  (posixpath.ancestors (posixpath.dirname FRONTEND_ICON));
        heap := heap w ++ [derived im 256];
        stdout := stdout w ++ ["  src/assets/icon.png (256x256)"] |},
     Ok tt).
Proof.
  intros Hs Hmk Hnd Hio. unfold generate_frontend_asset.
  step_resize.
  erewrite bind_Ok; [| apply os_makedirs_Ok; exact Hmk ].
  erewrite bind_Ok;
    [| eapply Image_save_Ok with (content := PNG_file _);
       [heap_lookup | reflexivity | intros; reflexivity |] ].
  - reflexivity.
  - repeat split; wsimpl;
      [|apply elem_of_union; right; apply elem_of_list_to_set, ancestors_self
       |exact Hio].
    rewrite elem_of_union, elem_of_list_to_set, list_elem_of_In.
    intros [H|H]; [now apply Hnd|]. now apply FRONTEND_ICON_not_ancestor.
Qed.

Lemma comprehension_resize (l : list Z) (w : World) (source : nat) (im : Image) :
  heap w !! source = Some im ->
  Forall (fun n => 1 <= n <= ROUTINE_EDGE) l ->
  comprehension l (resize source) w
  = (set_heap (heap w ++ map (derived im) l) w,
     Ok (seq (length (heap w)) (length l))).
Proof.
  intros Hs Hl. revert w Hs.
  induction Hl as [|n l Hn _ IH]; intros w Hs; cbn [comprehension].
  - unfold ret, set_heap. rewrite app_nil_r. now destruct w.
  - step_resize.
    erewrite bind_Ok; [| apply IH; heap_lookup ].
    unfold ret. wsimpl. rewrite length_app, <- app_assoc. cbn [length map app seq].
    replace (length (heap w) + 1)%nat with (S (length (heap w))) by lia.
    reflexivity.
Qed.

Lemma lookup_app_seq (h l : list Image) :
  Forall2 (fun r x => (h ++ l)%list !! r = Some x)
          (seq (length h) (length l)) l.
Proof.
  revert h. induction l as [|x l IH]; intros h; cbn [length seq]; constructor.
  - now apply list_lookup_middle.
  - specialize (IH (h ++ [x])%list). rewrite length_app in IH. cbn [length] in IH.
    replace (length h + 1)%nat with (S (length h)) in IH by lia.
    now rewrite <- app_assoc in IH.
Qed.

(** The ICO handler is called on the 16x16 image: every requested
    size above 16 is skipped. *)
Lemma ico_frames_of_16 (im : Image) :
  ico_frames (derived im 16) (map (fun s => (s, s)) ico_sizes)
             (map (derived im) [24; 32; 48; 64; 128; 256])
  = [derived im 16].
Proof. reflexivity. Qed.


(** Called on the 256x256 image with the smaller ones appended, the
    same handler embeds all seven sizes. *)
Lemma ico_frames_of_256 (im : Image) :
  ico_frames (derived im 256) (map (fun s => (s, s)) ico_sizes)
             (map (derived im) [16; 24; 32; 48; 64; 128])
  = map (derived im) ico_sizes.
Proof. reflexivity. Qed.

Lemma generate_ico_Ok (w : World) (source : nat) (im : Image) :
  heap w !! source = Some im ->
  writable w ico_path ->
  generate_ico source w
  = ({| files := <[ico_path := ICO_file [derived im 16]]> (files w);
        dirs := dirs w;
        heap := heap w ++ map (derived im) ico_sizes;
        stdout := stdout w ++ ["  icon.ico (16, 24, 32, 48, 64, 128, 256)"] |},
     Ok tt).
Proof.
  intros Hs Hw. unfold generate_ico.
  erewrite bind_Ok;
    [| apply comprehension_resize;
       [exact Hs
       | unfold ico_sizes, ROUTINE_EDGE; repeat apply Forall_cons_2;
         try apply Forall_nil_2; lia] ].
  cbn [ico_sizes length seq map].
  erewrite bind_Ok;
    [| eapply Image_save_Ok with (content := ICO_file [derived im 16]);
       [ wsimpl; now apply list_lookup_middle
       | reflexivity
       | | writable_now ] ].
  - reflexivity.
  - intros w0 Hw0. cbn [heap set_heap] in Hw0. unfold save_handler.
    erewrite bind_Ok; [| apply comprehension_deref ].
    + unfold ret. cbn [sizes append_images default].
      rewrite <- (ico_frames_of_16 im). reflexivity.
    + rewrite Hw0. cbn [append_images].
      pose proof (lookup_app_seq (heap w ++ [derived im 16])
                    (map (derived im) [24; 32; 48; 64; 128; 256])) as H.
      rewrite length_app, <- app_assoc in H. cbn [length map app seq] in H.
      replace (length (heap w) + 1)%nat with (S (length (heap w))) in H by lia.
      exact H.
Qed.


(** ** The run up to the ICNS step *)

Lemma writable_after_makedirs (w w' : World) (p : string) :
  dirs w' = dirs w ∪ list_to_set
              (posixpath.ancestors (posixpath.dirname FRONTEND_ICON)) ->
  In p script_outputs ->
  writable w p -> writable w' p.
Proof.
  intros Hd Hp (Hnd & Hpar & Hio). repeat split; rewrite ?Hd.
  - rewrite elem_of_union, elem_of_list_to_set, list_elem_of_In.
    intros [H|H]; [now apply Hnd|]. now apply (script_outputs_not_ancestor p).
  - apply elem_of_union. now left.
  - exact Hio.
Qed.

Lemma lookup_app_second {A} (h : list A) (a b : A) :
  (h ++ [a; b])%list !! S (length h) = Some b.
Proof.
  change (h ++ [a; b])%list with (h ++ ([a] ++ [b]))%list.
  rewrite app_assoc. apply list_lookup_middle.
  rewrite length_app. cbn [length]. lia.
Qed.

Lemma in_png_paths (p : string) : In p png_paths -> In p script_outputs.
Proof. intros H. unfold script_outputs. apply in_or_app. now left. Qed.

Lemma before_icns_Ok (w : World) (img : Image) :
  ready w img ->
  before_icns w = (world_before_icns w img, Ok (S (length (heap w)))).
Proof.
  intros [(f & Hf & Hd) Hout Hmk Hnd Hio].
  apply Forall_app in Hout as [Hpng Hico].
  apply Forall_cons in Hico as [Hico _].
  unfold before_icns.
  erewrite bind_Ok; [| eapply load_source_Ok; eassumption ].
  set (source := converted img RGBA).
  erewrite bind_Ok;
    [| apply generate_pngs_Ok with (im := source);
       [ wsimpl; apply lookup_app_second
       | eapply Forall_impl; [exact Hpng|];
         intros p (? & ? & ?); repeat split; assumption ] ].
  wsimpl.
  erewrite bind_Ok;
    [| apply generate_frontend_asset_Ok with (im := source) ].
  2:{ wsimpl. apply lookup_app_l_Some, lookup_app_second. }
  2:{ unfold can_makedirs in *. wsimpl.
      rewrite Forall_forall in Hmk |- *. intros a Ha.
      rewrite !dom_insert_L, !elem_of_union, !elem_of_singleton.
      intros H.
      assert (Hno : forall p, In p png_paths -> a <> p).
      { intros p Hp ->. eapply script_outputs_not_ancestor;
          [apply in_png_paths, Hp | apply list_elem_of_In, Ha]. }
      unfold png_paths, PNG_SIZES in Hno. cbn [map In] in Hno.
      destruct H as [H|[H|[H|[H|H]]]];
        [eapply Hno; [|exact H]; auto 10 ..|].
      apply (Hmk a); [exact Ha | exact H]. }
  2:{ exact Hnd. }
  2:{ exact Hio. }
  wsimpl.
  erewrite bind_Ok;
    [| apply generate_ico_Ok with (im := source) ].
  2:{ wsimpl. do 2 apply lookup_app_l_Some. apply lookup_app_second. }
  2:{ apply writable_after_makedirs with (w := w);
        [reflexivity | unfold script_outputs; apply in_or_app; right; now left
        | exact Hico]. }
  unfold ret, world_before_icns. wsimpl. fold source.
  rewrite <- !app_assoc. reflexivity.
Qed.


Ltac paths_under :=
  rewrite ?FRONTEND_ICON_under, ?ico_path_under, ?icns_path_under,
          ?join_one by reflexivity.

Ltac under_ne := let H := fresh in intros H%under_inj; discriminate H.

(** What the paths written before the ICNS step hold. *)
Lemma files_before_icns (w : World) (img : Image) :
  let source := converted img RGBA in
  let fs := files (world_before_icns w img) in
  fs !! posixpath.join SCRIPT_DIR ["32x32.png"] = Some (PNG_file (derived source 32))
  /\ fs !! posixpath.join SCRIPT_DIR ["128x128.png"] = Some (PNG_file (derived source 128))
  /\ fs !! posixpath.join SCRIPT_DIR ["128x128@2x.png"] = Some (PNG_file (derived source 256))
  /\ fs !! posixpath.join SCRIPT_DIR ["icon.png"] = Some (PNG_file (derived source 512))
  /\ fs !! FRONTEND_ICON = Some (PNG_file (derived source 256))
  /\ fs !! ico_path = Some (ICO_file [derived source 16]).
Proof.
  intros source fs. subst fs. unfold world_before_icns. cbn [files].
  fold source. paths_under.
  repeat split;
    repeat (first [ apply lookup_insert_eq
                  | rewrite lookup_insert_ne by under_ne ]).
Qed.

(** Every other path is as it was. *)
Lemma files_before_icns_other (w : World) (img : Image) (q : string) :
  ~ In q png_paths -> q <> FRONTEND_ICON -> q <> ico_path ->
  files (world_before_icns w img) !! q = files w !! q.
Proof.
  intros Hpng Hf Hi. unfold world_before_icns. cbn [files].
  unfold png_paths, PNG_SIZES in Hpng. cbn [map In] in Hpng.
  rewrite !lookup_insert_ne by (intros <-; apply Hpng; auto 10). reflexivity.
Qed.

(** ** The ICNS step and the end of the run *)

Lemma generate_icns_caught (w w' : World) (source : nat) (e : exn) :
  Image_save source icns_path ICNS no_params w = (w', Raise e) ->
  generate_icns source w = (set_stdout (stdout w' ++ [ICNS_WARNING]) w', Ok tt).
Proof.
  intros H. unfold generate_icns, try_except.
  rewrite (bind_Raise _ _ _ _ _ H). reflexivity.
Qed.

Lemma generate_icns_saved (w w' : World) (source : nat) :
  Image_save source icns_path ICNS no_params w = (w', Ok tt) ->
  generate_icns source w = (set_stdout (stdout w' ++ ["  icon.icns"]) w', Ok tt).
Proof.
  intros H. unfold generate_icns, try_except.
  rewrite (bind_Ok _ _ _ _ _ H). reflexivity.
Qed.

Lemma from_icns_caught (w w' : World) (source : nat) (e : exn) :
  Image_save source icns_path ICNS no_params w = (w', Raise e) ->
  from_icns source w
  = (set_stdout (stdout w' ++ [ICNS_WARNING; ""; DONE]) w', Ok tt).
Proof.
  intros H. unfold from_icns.
  rewrite (bind_Ok _ _ _ _ _ (generate_icns_caught _ _ _ _ H)).
  unfold bind, print. wsimpl. rewrite <- !app_assoc. reflexivity.
Qed.

Lemma from_icns_saved (w w' : World) (source : nat) :
  Image_save source icns_path ICNS no_params w = (w', Ok tt) ->
  from_icns source w
  = (set_stdout (stdout w' ++ ["  icon.icns"; ""; DONE]) w', Ok tt).
Proof.
  intros H. unfold from_icns.
  rewrite (bind_Ok _ _ _ _ _ (generate_icns_saved _ _ _ H)).
  unfold bind, print. wsimpl. rewrite <- !app_assoc. reflexivity.
Qed.

(** From the ICNS step on the run cannot fail: it ends with the
    final line, after the line of the ICNS step, and touches no file
    but [icon.icns]. *)
Lemma from_icns_completes (w : World) (source : nat) :
  exists w' line,
    from_icns source w = (w', Ok tt)
    /\ stdout w' = stdout w ++ [line; ""; DONE]
    /\ (line = "  icon.icns" \/ line = ICNS_WARNING)
    /\ heap w' = heap w /\ dirs w' = dirs w
    /\ forall q, q <> icns_path -> files w' !! q = files w !! q.
Proof.
  destruct (Image_save source icns_path ICNS no_params w) as [w1 [[]|e]] eqn:E;
    pose proof (Image_save_frame _ _ _ _ _ _ _ E) as (Ho & Hh & Hd & Hf).
  - eexists _, _. split; [apply from_icns_saved, E|].
    wsimpl. rewrite Ho. auto 10.
  - eexists _, _. split; [apply (from_icns_caught _ _ _ _ E)|].
    wsimpl. rewrite Ho. auto 10.
Qed.

Lemma main_missing (w : World) :
  files w !! SOURCE = None -> SOURCE ∉ dirs w ->
  main w
  = (set_stdout (stdout w ++ ["ERROR: Source not found: " +:+ SOURCE]) w,
     Ok tt).
Proof.
  intros Hf Hd. unfold main.
  rewrite (bind_Ok _ _ _ _ _ (os_path_exists_false _ _ Hf Hd)).
  reflexivity.
Qed.

Lemma main_found (w : World) (f : file) :
  files w !! SOURCE = Some f ->
  main w = bind before_icns from_icns w.
Proof.
  intros Hf. unfold main.
  rewrite (bind_Ok _ _ _ _ _ (os_path_exists_file _ _ _ Hf)). cbn [negb].
  unfold before_icns, from_icns, bind, ret.
  destruct (load_source w) as [w1 [source|e]]; [|reflexivity].
  destruct (generate_pngs source w1) as [w2 [[]|e]]; [|reflexivity].
  destruct (generate_frontend_asset source w2) as [w3 [[]|e]]; [|reflexivity].
  destruct (generate_ico source w3) as [w4 [[]|e]]; reflexivity.
Qed.

(** In a ready environment the run completes. *)
Lemma main_completes (w : World) (img : Image) :
  ready w img ->
  exists w' line,
    main w = (w', Ok tt)
    /\ stdout w' = stdout (world_before_icns w img) ++ [line; ""; DONE]
    /\ (line = "  icon.icns" \/ line = ICNS_WARNING)
    /\ heap w' = heap (world_before_icns w img)
    /\ dirs w' = dirs (world_before_icns w img)
    /\ forall q, q <> icns_path ->
                 files w' !! q = files (world_before_icns w img) !! q.
Proof.
  intros Hr. pose proof Hr as [(f & Hf & _) _ _ _ _].
  rewrite (main_found _ _ Hf).
  rewrite (bind_Ok _ _ _ _ _ (before_icns_Ok _ _ Hr)).
  apply from_icns_completes.
Qed.


(** ** Properties of the script *)

Lemma os_makedirs_idempotent (w w1 : World) (name : string) :
  os_makedirs name w = (w1, Ok tt) -> os_makedirs name w1 = (w1, Ok tt).
Proof.
  unfold os_makedirs.
  destruct (List.find (fun a => bool_decide (a ∈ dom (files w)))
                      (posixpath.ancestors name)) eqn:E; [discriminate|].
  intros [= <-]. wsimpl. rewrite E. unfold set_dirs. wsimpl.
  do 2 f_equal. apply set_eq. intros x. rewrite !elem_of_union.
  split; [intros [[H|H]|H] | intros [H|H]]; auto.
Qed.

Lemma resize_rejects_nonpositive (w : World) (source : nat) (im : Image) :
  heap w !! source = Some im ->
  resize source 0 w = (w, Raise (ValueError "height and width must be > 0")).
Proof.
  intros Hs. apply resize_Raise with (im := im); [exact Hs|].
  unfold INT_MIN. lia.
Qed.

(** C1: if the source path does not exist, [main] prints an error line
    naming the path and returns: no image is opened, no file is written
    and no directory is created. *)
Theorem source_not_found (w : World) :
  files w !! SOURCE = None -> SOURCE ∉ dirs w ->
  exists w',
    main w = (w', Ok tt)
    /\ stdout w' = stdout w ++ ["ERROR: Source not found: " +:+ SOURCE]
    /\ files w' = files w /\ dirs w' = dirs w /\ heap w' = heap w.
Proof.
  intros Hf Hd. eexists. split; [apply main_missing; assumption|].
  wsimpl. auto.
Qed.

(** C2: for an RGBA source image the PNG step writes the four files
    [32x32.png], [128x128.png], [128x128@2x.png] and [icon.png] of the
    size table into [SCRIPT_DIR], each holding a square bitmap whose
    width and height are the entry of the table (32, 128, 256, 512),
    and writes nothing else. *)
Theorem png_set_emitted (w : World) (source : nat) (im : Image) :
  heap w !! source = Some im ->
  im_mode im = RGBA ->
  Forall (writable w) png_paths ->
  exists w',
    generate_pngs source w = (w', Ok tt)
    /\ (forall filename size, In (filename, size) PNG_SIZES ->
        exists png,
          files w' !! posixpath.join SCRIPT_DIR [filename] = Some (PNG_file png)
          /\ png = derived im size
          /\ width png = size /\ height png = size /\ im_mode png = RGBA)
    /\ (forall q, ~ In q png_paths -> files w' !! q = files w !! q)
    /\ dirs w' = dirs w
    /\ PNG_SIZES = [("32x32.png", 32); ("128x128.png", 128);
                    ("128x128@2x.png", 256); ("icon.png", 512)].
Proof.
  intros Hs Hm Hw. eexists. split; [now apply generate_pngs_Ok with (im := im)|].
  wsimpl. repeat split.
  - intros filename size Hin. exists (derived im size).
    unfold PNG_SIZES in Hin. cbn [In] in Hin.
    assert (Hok : forall n, derived im n = derived im n /\ width (derived im n) = n
                            /\ height (derived im n) = n
                            /\ im_mode (derived im n) = RGBA)
      by (intros n; repeat split; exact Hm).
    destruct Hin as [[= <- <-]|[[= <- <-]|[[= <- <-]|[[= <- <-]|[]]]]];
      (split; [|apply Hok]); paths_under;
      repeat (first [ apply lookup_insert_eq
                    | rewrite lookup_insert_ne by under_ne ]).
  - intros q Hq. unfold png_paths, PNG_SIZES in Hq. cbn [map In] in Hq.
    rewrite !lookup_insert_ne by (intros <-; apply Hq; auto 10). reflexivity.
Qed.


(** C7: the front-end step resizes the source to 256 by 256 and writes
    it as a PNG at [FRONTEND_ICON], after creating the directory of that
    path and its ancestors, so that the write succeeds even when the
    directory did not exist; creating the directory is idempotent: on a
    world where it already succeeded it succeeds again and changes
    nothing. *)
Theorem frontend_asset_emitted (w : World) (source : nat) (im : Image) :
  heap w !! source = Some im ->
  can_makedirs w (posixpath.dirname FRONTEND_ICON) ->
  FRONTEND_ICON ∉ dirs w ->
  io_fault FRONTEND_ICON = None ->
  exists w' png,
    generate_frontend_asset source w = (w', Ok tt)
    /\ files w' !! FRONTEND_ICON = Some (PNG_file png)
    /\ png = derived im 256 /\ im_size png = (256, 256)
    /\ (forall a, In a (posixpath.ancestors (posixpath.dirname FRONTEND_ICON)) ->
                  a ∈ dirs w')
    /\ posixpath.dirname FRONTEND_ICON ∈ dirs w'
    /\ (forall q, q <> FRONTEND_ICON -> files w' !! q = files w !! q)
    /\ (forall w0 w1,
          os_makedirs (posixpath.dirname FRONTEND_ICON) w0 = (w1, Ok tt) ->
          os_makedirs (posixpath.dirname FRONTEND_ICON) w1 = (w1, Ok tt)).
Proof.
  intros Hs Hmk Hnd Hio. eexists _, (derived im 256).
  split; [now apply generate_frontend_asset_Ok with (im := im)|].
  wsimpl. repeat split.
  - apply lookup_insert_eq.
  - intros a Ha. apply elem_of_union. right.
    now apply elem_of_list_to_set, list_elem_of_In.
  - apply elem_of_union. right. apply elem_of_list_to_set, ancestors_self.
  - intros q Hq. now rewrite lookup_insert_ne.
  - intros w0 w1. apply os_makedirs_idempotent.
Qed.


Lemma source_before_icns (w : World) (img : Image) :
  heap (world_before_icns w img) !! S (length (heap w))
  = Some (converted img RGBA).
Proof.
  unfold world_before_icns. cbn [heap].
  change [img; converted img RGBA; derived (converted img RGBA) 32;
          derived (converted img RGBA) 128; derived (converted img RGBA) 256;
          derived (converted img RGBA) 512; derived (converted img RGBA) 256]
    with ([img; converted img RGBA]
          ++ [derived (converted img RGBA) 32;
              derived (converted img RGBA) 128; derived (converted img RGBA) 256;
              derived (converted img RGBA) 512; derived (converted img RGBA) 256]).
  rewrite <- !app_assoc, app_assoc. apply lookup_app_l_Some, lookup_app_second.
Qed.

Lemma icns_path_fresh : ~ In icns_path png_paths /\ icns_path <> FRONTEND_ICON
                        /\ icns_path <> ico_path.
Proof.
  unfold png_paths, PNG_SIZES. cbn [map In]. paths_under.
  repeat split; try under_ne.
  intros [H|[H|[H|[H|[]]]]]; apply under_inj in H; discriminate H.
Qed.

(** C3 (what the code does): in a ready environment the run completes
    and the [icon.ico] it leaves embeds one frame only, the 16 by 16
    resize of the source: [save] is called on the 16 by 16 image, and the
    ICO handler skips every requested size larger than that image. *)
Theorem ico_embeds_only_16 (w : World) (img : Image) :
  ready w img ->
  exists w' frame,
    main w = (w', Ok tt)
    /\ files w' !! ico_path = Some (ICO_file [frame])
    /\ frame = derived (converted img RGBA) 16
    /\ im_size frame = (16, 16)
    /\ map im_size [frame] <> map (fun s => (s, s)) ico_sizes.
Proof.
  intros Hr.
  destruct (main_completes _ _ Hr) as (w' & line & Hm & _ & _ & _ & _ & Hf).
  exists w', (derived (converted img RGBA) 16).
  split; [exact Hm|]. split.
  - rewrite Hf by (intros H; symmetry in H; now apply icns_path_fresh in H).
    apply files_before_icns.
  - repeat apply conj; try reflexivity. discriminate.
Qed.

(** C4: when Pillow registers no ICNS save handler, the [KeyError] of
    the ICNS save is caught, the warning is printed, and the run
    completes with the final line, having written the four PNG files,
    the front-end PNG and [icon.ico]; nothing is written at
    [icon.icns]. *)
Theorem icns_unavailable_tolerated (w : World) (img : Image) :
  icns_registered = false ->
  ready w img ->
  let source := converted img RGBA in
  exists w',
    main w = (w', Ok tt)
    /\ (exists printed, stdout w' = printed ++ [ICNS_WARNING; ""; DONE])
    /\ files w' !! posixpath.join SCRIPT_DIR ["32x32.png"]
       = Some (PNG_file (derived source 32))
    /\ files w' !! posixpath.join SCRIPT_DIR ["128x128.png"]
       = Some (PNG_file (derived source 128))
    /\ files w' !! posixpath.join SCRIPT_DIR ["128x128@2x.png"]
       = Some (PNG_file (derived source 256))
    /\ files w' !! posixpath.join SCRIPT_DIR ["icon.png"]
       = Some (PNG_file (derived source 512))
    /\ files w' !! FRONTEND_ICON = Some (PNG_file (derived source 256))
    /\ (exists frames, files w' !! ico_path = Some (ICO_file frames))
    /\ files w' !! icns_path = files w !! icns_path.
Proof.
  intros Hreg Hr source. pose proof Hr as [(f & Hf & _) _ _ _ _].
  eexists. split.
  - rewrite (main_found _ _ Hf).
    rewrite (bind_Ok _ _ _ _ _ (before_icns_Ok _ _ Hr)).
    eapply from_icns_caught, Image_save_unregistered;
      [apply source_before_icns | exact Hreg].
  - cbn [stdout files set_stdout].
    destruct (files_before_icns w img) as (H1 & H2 & H3 & H4 & H5 & H6).
    repeat apply conj; try assumption.
    + eexists. reflexivity.
    + eexists. exact H6.
    + destruct icns_path_fresh as (F1 & F2 & F3).
      now apply files_before_icns_other.
Qed.


(** C9: the handler of the ICNS step is not specific to a missing
    encoder: whatever exception the ICNS save raises in the world the
    earlier steps have reached, the same warning is printed, the run goes
    on to the final line and returns normally; only [icon.icns] can
    differ from what the earlier steps left. *)
Theorem icns_handler_catches_all (w w5 w6 : World) (f : file) (source : nat)
        (e : exn) :
  files w !! SOURCE = Some f ->
  before_icns w = (w5, Ok source) ->
  Image_save source icns_path ICNS no_params w5 = (w6, Raise e) ->
  exists w',
    main w = (w', Ok tt)
    /\ stdout w' = stdout w5 ++ [ICNS_WARNING; ""; DONE]
    /\ heap w' = heap w5 /\ dirs w' = dirs w5
    /\ forall q, q <> icns_path -> files w' !! q = files w5 !! q.
Proof.
  intros Hf Hb Hs.
  pose proof (Image_save_frame _ _ _ _ _ _ _ Hs) as (Ho & Hh & Hd & Hfs).
  eexists. split.
  - rewrite (main_found _ _ Hf), (bind_Ok _ _ _ _ _ Hb).
    apply (from_icns_caught _ _ _ _ Hs).
  - wsimpl. rewrite Ho. auto.
Qed.

(** C10 (what the code does): the dimensions of the source are never
    checked: for a source file that decodes to an image of any size,
    square or not, smaller than the targets or not, the run completes in
    a ready environment and every PNG is written at the size declared for
    it; but [icon.ico] holds the 16 by 16 resize only, so none of the
    declared ICO sizes from 24 to 256 is produced. *)
Theorem no_dimension_validation (w : World) (img : Image) :
  ready w img ->
  exists w',
    main w = (w', Ok tt)
    /\ last (stdout w') = Some DONE
    /\ (forall filename size, In (filename, size) PNG_SIZES ->
        exists png,
          files w' !! posixpath.join SCRIPT_DIR [filename] = Some (PNG_file png)
          /\ png = derived (converted img RGBA) size
          /\ im_size png = (size, size))
    /\ (exists png, files w' !! FRONTEND_ICON = Some (PNG_file png)
                    /\ png = derived (converted img RGBA) 256
                    /\ im_size png = (256, 256))
    /\ (exists frames,
          files w' !! ico_path = Some (ICO_file frames)
          /\ frames = [derived (converted img RGBA) 16]
          /\ map im_size frames = [(16, 16)]
          /\ forall s, In s [24; 32; 48; 64; 128; 256] ->
                       ~ In (s, s) (map im_size frames)).
Proof.
  intros Hr.
  destruct (main_completes _ _ Hr) as (w' & line & Hm & Ho & _ & _ & _ & Hf).
  destruct icns_path_fresh as (F1 & F2 & F3).
  destruct (files_before_icns w img) as (H1 & H2 & H3 & H4 & H5 & H6).
  exists w'. split; [exact Hm|]. repeat apply conj.
  - rewrite Ho.
    change [line; ""; DONE] with ([line; ""] ++ [DONE]).
    rewrite app_assoc. apply last_snoc.
  - intros filename size Hin. unfold PNG_SIZES in Hin. cbn [In] in Hin.
    assert (Hne : forall name, In (posixpath.join SCRIPT_DIR [name]) png_paths ->
              posixpath.join SCRIPT_DIR [name] <> icns_path)
      by (intros name Hn Heq; apply F1; now rewrite <- Heq).
    unfold png_paths, PNG_SIZES in Hne. cbn [map In] in Hne.
    destruct Hin as [[= <- <-]|[[= <- <-]|[[= <- <-]|[[= <- <-]|[]]]]];
      eexists; (split; [rewrite Hf by (apply Hne; auto 10); eassumption
                       | split; reflexivity]).
  - eexists. split; [rewrite Hf by congruence; exact H5 | split; reflexivity].
  - eexists. split; [rewrite Hf by congruence; exact H6 |].
    repeat apply conj; try reflexivity.
    intros s Hs [Heq|[]]. cbn [In] in Hs.
    repeat (destruct Hs as [<-|Hs]; [discriminate Heq|]). exact Hs.
Qed.



(** ** What a run can and cannot touch *)

Lemma extends_refl (ps : list string) (w : World) : extends ps w w.
Proof.
  repeat apply conj; [reflexivity | reflexivity | exists [] | exists []];
    now rewrite app_nil_r.
Qed.

Lemma extends_trans (ps : list string) (w1 w2 w3 : World) :
  extends ps w1 w2 -> extends ps w2 w3 -> extends ps w1 w3.
Proof.
  intros (F1 & D1 & [h1 H1] & [o1 O1]) (F2 & D2 & [h2 H2] & [o2 O2]).
  repeat apply conj.
  - intros q Hq. now rewrite F2, F1.
  - etrans; eassumption.
  - exists (h1 ++ h2). now rewrite H2, H1, app_assoc.
  - exists (o1 ++ o2). now rewrite O2, O1, app_assoc.
Qed.

Lemma confined_ret {A} (ps : list string) (a : A) : confined ps (ret a).
Proof. intros w w' r [= <- _]. apply extends_refl. Qed.

Lemma confined_raise {A} (ps : list string) (e : exn) :
  confined ps (raise (A := A) e).
Proof. intros w w' r [= <- _]. apply extends_refl. Qed.

Lemma confined_bind {A B} (ps : list string) (m : M A) (k : A -> M B) :
  confined ps m -> (forall a, confined ps (k a)) -> confined ps (bind m k).
Proof.
  intros Hm Hk w w' r. unfold bind.
  destruct (m w) as [w1 [a|e]] eqn:E; intros H.
  - eapply extends_trans; [eapply Hm, E | eapply Hk, H].
  - injection H as <- _. eapply Hm, E.
Qed.

Lemma confined_try_except {A} (ps : list string) (m h : M A) :
  confined ps m -> confined ps h -> confined ps (try_except m h).
Proof.
  intros Hm Hh w w' r. unfold try_except.
  destruct (m w) as [w1 [a|e]] eqn:E; intros H.
  - injection H as <- _. eapply Hm, E.
  - eapply extends_trans; [eapply Hm, E | eapply Hh, H].
Qed.

Lemma confined_for_each {A} (ps : list string) (l : list A) (body : A -> M unit) :
  (forall x, In x l -> confined ps (body x)) -> confined ps (for_each l body).
Proof.
  induction l as [|x l IH]; intros Hb; cbn [for_each].
  - apply confined_ret.
  - apply confined_bind; [apply Hb; now left | intros _].
    apply IH. intros y Hy. apply Hb. now right.
Qed.

Lemma confined_comprehension {A B} (ps : list string) (l : list A) (f : A -> M B) :
  (forall x, confined ps (f x)) -> confined ps (comprehension l f).
Proof.
  intros Hf. induction l as [|x l IH]; cbn [comprehension].
  - apply confined_ret.
  - apply confined_bind; [apply Hf | intros y].
    apply confined_bind; [exact IH | intros ys; apply confined_ret].
Qed.

Lemma confined_print (ps : list string) (line : string) : confined ps (print line).
Proof.
  intros w w' r [= <- _]. repeat apply conj; cbn; try reflexivity.
  - exists []. now rewrite app_nil_r.
  - now exists [line].
Qed.

Lemma confined_alloc (ps : list string) (im : Image) : confined ps (alloc im).
Proof.
  intros w w' r [= <- _]. repeat apply conj; cbn; try reflexivity.
  - now exists [im].
  - exists []. now rewrite app_nil_r.
Qed.

Lemma confined_deref (ps : list string) (r : nat) : confined ps (deref r).
Proof.
  intros w w' res. unfold deref.
  destruct (heap w !! r); intros [= <- _]; apply extends_refl.
Qed.

Lemma confined_os_path_exists (ps : list string) (p : string) :
  confined ps (os_path_exists p).
Proof. intros w w' r [= <- _]. apply extends_refl. Qed.

Lemma confined_os_makedirs (ps : list string) (name : string) :
  confined ps (os_makedirs name).
Proof.
  intros w w' r. unfold os_makedirs.
  destruct (List.find _ _); intros [= <- _]; [apply extends_refl|].
  repeat apply conj; cbn; try reflexivity.
  - apply union_subseteq_l.
  - exists []. now rewrite app_nil_r.
  - exists []. now rewrite app_nil_r.
Qed.

Lemma confined_Image_open (ps : list string) (fp : string) :
  confined ps (Image_open fp).
Proof.
  intros w w' r. unfold Image_open.
  destruct (files w !! fp) as [f|]; [destruct (decode f)|].
  - apply confined_alloc.
  - intros [= <- _]. apply extends_refl.
  - intros [= <- _]. apply extends_refl.
Qed.

Lemma confined_Image_convert (ps : list string) (self : nat) (m : mode) :
  confined ps (Image_convert self m).
Proof.
  apply confined_bind; [apply confined_deref | intros im; apply confined_alloc].
Qed.

Lemma confined_resize (ps : list string) (source : nat) (n : Z) :
  confined ps (resize source n).
Proof.
  apply confined_bind; [apply confined_deref | intros im].
  destruct (negb _); [apply confined_raise|].
  destruct (_ || _); [apply confined_raise|].
  destruct (allocation_fails _); [apply confined_raise | apply confined_alloc].
Qed.

Lemma confined_Image_save (ps : list string) (self : nat) (fp : string)
      (f : format) (params : encoderinfo) :
  In fp ps -> confined ps (Image_save self fp f params).
Proof.
  intros Hin w w' r H.
  apply Image_save_frame in H as (Ho & Hh & Hd & Hf).
  repeat apply conj.
  - intros q Hq. apply Hf. intros ->. now apply Hq.
  - now rewrite Hd.
  - exists []. now rewrite app_nil_r.
  - exists []. now rewrite app_nil_r.
Qed.


Lemma in_all_outputs (p : string) : In p script_outputs -> In p all_outputs.
Proof. intros H. now right. Qed.

Lemma png_path_in_outputs (filename : string) (size : Z) :
  In (filename, size) PNG_SIZES ->
  In (posixpath.join SCRIPT_DIR [filename]) all_outputs.
Proof.
  intros H. apply in_all_outputs, in_png_paths. unfold png_paths.
  change (posixpath.join SCRIPT_DIR [filename])
    with ((fun '(filename, _) => posixpath.join SCRIPT_DIR [filename])
            (filename, size)).
  now apply in_map.
Qed.

Lemma confined_load_source : confined all_outputs load_source.
Proof.
  apply confined_bind; [apply confined_Image_open | intros opened].
  apply confined_bind; [apply confined_Image_convert | intros source].
  apply confined_bind; [apply confined_deref | intros im].
  apply confined_bind; [apply confined_print | intros _].
  apply confined_bind; [apply confined_print | intros _; apply confined_ret].
Qed.

Lemma confined_generate_pngs (source : nat) :
  confined all_outputs (generate_pngs source).
Proof.
  apply confined_for_each. intros [filename size] Hin.
  apply confined_bind; [apply confined_resize | intros img].
  apply confined_bind; [|intros _; apply confined_print].
  eapply confined_Image_save, png_path_in_outputs, Hin.
Qed.

Lemma confined_generate_frontend_asset (source : nat) :
  confined all_outputs (generate_frontend_asset source).
Proof.
  apply confined_bind; [apply confined_resize | intros img].
  apply confined_bind; [apply confined_os_makedirs | intros _].
  apply confined_bind; [|intros _; apply confined_print].
  apply confined_Image_save. now left.
Qed.

Lemma confined_generate_ico (source : nat) :
  confined all_outputs (generate_ico source).
Proof.
  apply confined_bind;
    [apply confined_comprehension; intros s; apply confined_resize|].
  intros ico_images.
  apply confined_bind; [|intros _; apply confined_print].
  destruct ico_images as [|first rest]; [apply confined_raise|].
  apply confined_Image_save, in_all_outputs.
  unfold script_outputs. apply in_or_app. right. now left.
Qed.

Lemma confined_generate_icns (source : nat) :
  confined all_outputs (generate_icns source).
Proof.
  apply confined_try_except; [|apply confined_print].
  apply confined_bind; [|intros _; apply confined_print].
  apply confined_Image_save, in_all_outputs.
  unfold script_outputs. apply in_or_app. right. right. now left.
Qed.

Lemma confined_main : confined all_outputs main.
Proof.
  apply confined_bind; [apply confined_os_path_exists | intros found].
  destruct (negb found); [apply confined_print|].
  apply confined_bind; [apply confined_load_source | intros source].
  apply confined_bind; [apply confined_generate_pngs | intros _].
  apply confined_bind; [apply confined_generate_frontend_asset | intros _].
  apply confined_bind; [apply confined_generate_ico | intros _].
  apply confined_bind; [apply confined_generate_icns | intros _].
  apply confined_bind; [apply confined_print | intros _; apply confined_print].
Qed.

Lemma SOURCE_not_output : ~ In SOURCE all_outputs.
Proof.
  unfold all_outputs. intros [H|H].
  - rewrite FRONTEND_ICON_under, SOURCE_under in H.
    apply under_inj in H. discriminate H.
  - apply script_outputs_under in H as (rel & Heq & _ & Hin).
    rewrite SOURCE_under in Heq. apply under_inj in Heq. subst rel.
    cbn [In] in Hin.
    repeat (destruct Hin as [Hin|Hin]; [discriminate Hin|]). exact Hin.
Qed.



(** X1: however a run of [main] ends, normally or with an exception, and
    whatever the world it starts in, a path that is not one of the seven
    outputs holds afterwards what it held before; in particular the
    source file is never modified. *)
Theorem main_writes_only_outputs (w w' : World) (r : result unit) :
  main w = (w', r) ->
  (forall q, ~ In q all_outputs -> files w' !! q = files w !! q)
  /\ files w' !! SOURCE = files w !! SOURCE
  /\ length all_outputs = 7%nat.
Proof.
  intros H. apply confined_main in H as (Hf & _).
  repeat apply conj; [exact Hf | apply Hf, SOURCE_not_output | reflexivity].
Qed.

(** X2: however a run of [main] ends, it removes no directory, leaves
    every image object that was in the store as it was, and only adds
    lines to what was printed. *)
Theorem main_only_adds (w w' : World) (r : result unit) :
  main w = (w', r) ->
  dirs w ⊆ dirs w'
  /\ (forall r0 x, heap w !! r0 = Some x -> heap w' !! r0 = Some x)
  /\ (exists printed, stdout w' = stdout w ++ printed).
Proof.
  intros H. apply confined_main in H as (_ & Hd & [h Hh] & Ho).
  repeat apply conj; [exact Hd | | exact Ho].
  intros r0 x Hx. rewrite Hh. now apply lookup_app_l_Some.
Qed.

(** X3: whatever [SCRIPT_DIR] is, the source path and the seven output
    paths that the script hands to the operating system are eight
    different strings.  (Two different strings can still name one file
    once [..] is resolved: this says nothing about that.) *)
Theorem paths_pairwise_distinct : NoDup (SOURCE :: all_outputs).
Proof.
  unfold all_outputs, script_outputs, png_paths, PNG_SIZES. cbn [map app].
  rewrite SOURCE_under. paths_under.
  change (NoDup (under <$> ["../../../logo.png"; "../../src/assets/icon.png";
                            "32x32.png"; "128x128.png"; "128x128@2x.png";
                            "icon.png"; "icon.ico"; "icon.icns"])).
  apply NoDup_fmap_2; [intros a b; apply under_inj|].
  apply (bool_decide_unpack _). vm_compute. exact I.
Qed.

(** X6: when the source path names a directory the existence check
    passes, and [main] ends with the [IsADirectoryError] of [Image.open]:
    the "Source not found" line is not printed and nothing is written. *)
Theorem source_is_a_directory (w : World) :
  files w !! SOURCE = None -> SOURCE ∈ dirs w ->
  main w = (w, Raise (IsADirectoryError SOURCE)).
Proof.
  intros Hf Hd. unfold main.
  assert (He : os_path_exists SOURCE w = (w, Ok true)).
  { unfold os_path_exists. rewrite (bool_decide_eq_true_2 _ Hd).
    now rewrite orb_true_r. }
  rewrite (bind_Ok _ _ _ _ _ He). cbn [negb].
  assert (Hl : load_source w = (w, Raise (IsADirectoryError SOURCE))).
  { unfold load_source, Image_open, bind.
    now rewrite Hf, (bool_decide_eq_true_2 _ Hd). }
  now rewrite (bind_Raise _ _ _ _ _ Hl).
Qed.

(** X9: in a ready environment the front-end asset and
    [128x128@2x.png] are both written from a resize of the RGBA source
    itself to 256 by 256 with the LANCZOS filter: both hold a 256 by 256
    bitmap whose pixel data is that resize of the source, not a copy or a
    resize of another derived image. *)
Theorem frontend_asset_is_the_2x_png (w : World) (img : Image) :
  ready w img ->
  exists w' png,
    main w = (w', Ok tt)
    /\ files w' !! FRONTEND_ICON = Some (PNG_file png)
    /\ files w' !! posixpath.join SCRIPT_DIR ["128x128@2x.png"]
       = Some (PNG_file png)
    /\ im_size png = (256, 256)
    /\ im_mode png = RGBA
    /\ im_data png = resample_data LANCZOS (converted img RGBA) (256, 256).
Proof.
  intros Hr.
  destruct (main_completes _ _ Hr) as (w' & line & Hm & _ & _ & _ & _ & Hf).
  destruct (files_before_icns w img) as (_ & _ & H3 & _ & H5 & _).
  destruct icns_path_fresh as (F1 & F2 & _).
  exists w', (derived (converted img RGBA) 256).
  repeat apply conj; [exact Hm | | | reflexivity ..].
  - rewrite Hf by congruence. exact H5.
  - rewrite Hf; [exact H3|]. intros Heq. apply F1. rewrite <- Heq.
    unfold png_paths, PNG_SIZES. cbn [map In]. auto.
Qed.

(** X10: whatever the mode of the decoded source file (RGB, palette,
    grey), every bitmap the run writes is RGBA: the four PNG files, the
    front-end PNG and every frame of [icon.ico]. *)
Theorem outputs_are_rgba (w : World) (img : Image) :
  ready w img ->
  exists w',
    main w = (w', Ok tt)
    /\ (forall filename size, In (filename, size) PNG_SIZES ->
        exists png,
          files w' !! posixpath.join SCRIPT_DIR [filename] = Some (PNG_file png)
          /\ im_mode png = RGBA)
    /\ (exists png, files w' !! FRONTEND_ICON = Some (PNG_file png)
                    /\ im_mode png = RGBA)
    /\ (exists frames, files w' !! ico_path = Some (ICO_file frames)
                       /\ Forall (fun frame => im_mode frame = RGBA) frames).
Proof.
  intros Hr.
  destruct (main_completes _ _ Hr) as (w' & line & Hm & _ & _ & _ & _ & Hf).
  destruct icns_path_fresh as (F1 & F2 & F3).
  destruct (files_before_icns w img) as (H1 & H2 & H3 & H4 & H5 & H6).
  exists w'. split; [exact Hm|]. repeat apply conj.
  - intros filename size Hin. unfold PNG_SIZES in Hin. cbn [In] in Hin.
    assert (Hne : forall name, In (posixpath.join SCRIPT_DIR [name]) png_paths ->
              posixpath.join SCRIPT_DIR [name] <> icns_path)
      by (intros name Hn Heq; apply F1; now rewrite <- Heq).
    unfold png_paths, PNG_SIZES in Hne. cbn [map In] in Hne.
    destruct Hin as [[= <- <-]|[[= <- <-]|[[= <- <-]|[[= <- <-]|[]]]]];
      eexists; (split; [rewrite Hf by (apply Hne; auto 10); eassumption
                       | reflexivity]).
  - eexists. split; [rewrite Hf by congruence; exact H5 | reflexivity].
  - eexists. split; [rewrite Hf by congruence; exact H6 |].
    repeat constructor.
Qed.


Lemma main_after_check (w : World) (f : file) :
  files w !! SOURCE = Some f ->
  main w = bind load_source (fun source =>
             generate_pngs source ;;;
             generate_frontend_asset source ;;;
             generate_ico source ;;;
             generate_icns source ;;;
             print "" ;;;
             print "Done. All icons generated from logo.png") w.
Proof.
  intros Hf. unfold main.
  rewrite (bind_Ok _ _ _ _ _ (os_path_exists_file _ _ _ Hf)). reflexivity.
Qed.

Lemma ancestors_head (p : string) :
  exists l, posixpath.ancestors p = p :: l.
Proof.
  unfold posixpath.ancestors.
  destruct (String.length p); cbn [posixpath.lineage]; [now exists []|].
  destruct (posixpath.is_empty (posixpath.dirname p)
            || String.eqb (posixpath.dirname p) p); eauto.
Qed.

(** [os.makedirs] on a path that is a regular file. *)
Lemma os_makedirs_on_file (w : World) (name : string) (f : file) :
  files w !! name = Some f ->
  os_makedirs name w = (w, Raise (FileExistsError name)).
Proof.
  intros Hf. unfold os_makedirs.
  destruct (ancestors_head name) as [l ->]. cbn [List.find].
  rewrite bool_decide_eq_true_2 by (apply elem_of_dom; now exists f).
  now rewrite String.eqb_refl.
Qed.

(** A failure of the environment while [save] writes. *)
Lemma Image_save_fault (w : World) (r : nat) (im : Image) (fp : string)
      (f : format) (params : encoderinfo) (content : file) (e : exn) :
  heap w !! r = Some im ->
  SAVE f = true ->
  (forall w0, heap w0 = heap w -> save_handler f im params w0 = (w0, Ok content)) ->
  fp ∉ dirs w -> posixpath.dirname fp ∈ dirs w ->
  io_fault fp = Some e ->
  exists w', Image_save r fp f params w = (w', Raise e).
Proof.
  intros Hr Hf Hh Hnd Hpar Hio. unfold Image_save.
  rewrite (bind_Ok _ _ _ _ _ (deref_Ok _ _ _ Hr)). rewrite Hf. cbn [negb].
  unfold bind at 1. unfold os_path_exists at 1.
  unfold bind at 1. unfold open_for_writing at 1.
  rewrite bool_decide_eq_false_2 by exact Hnd.
  rewrite bool_decide_eq_true_2 by exact Hpar. cbn [negb].
  unfold on_exception.
  erewrite bind_Ok; [|apply Hh; reflexivity].
  unfold write_file. rewrite Hio. eauto.
Qed.

(** X4: in a ready environment where Pillow can write ICNS and
    [icon.icns] is writable, the run prints the eleven lines of a
    complete run, the one for the ICO listing seven sizes, prints no
    warning, and writes [icon.icns] from the source at its full size, not
    from a resize. *)
Theorem complete_run_transcript (w : World) (img : Image) :
  icns_registered = true ->
  ready w img ->
  writable w icns_path ->
  exists w',
    main w = (w', Ok tt)
    /\ stdout w' = stdout w ++
         ["Source: " +:+ SOURCE +:+ " (" +:+ pretty (width img) +:+ "x"
          +:+ pretty (height img) +:+ ")"; "";
          "  32x32.png (32x32)"; "  128x128.png (128x128)";
          "  128x128@2x.png (256x256)"; "  icon.png (512x512)";
          "  src/assets/icon.png (256x256)";
          "  icon.ico (16, 24, 32, 48, 64, 128, 256)";
          "  icon.icns"; ""; "Done. All icons generated from logo.png"]
    /\ files w' !! icns_path = Some (ICNS_file (converted img RGBA))
    /\ im_size (converted img RGBA) = im_size img.
Proof.
  intros Hreg Hr Hw. pose proof Hr as [(f & Hf & _) _ _ _ _].
  eexists. split.
  - rewrite (main_found _ _ Hf).
    rewrite (bind_Ok _ _ _ _ _ (before_icns_Ok _ _ Hr)).
    apply from_icns_saved.
    eapply Image_save_Ok with (content := ICNS_file _);
      [apply source_before_icns | exact Hreg | intros; reflexivity |].
    apply writable_after_makedirs with (w := w); [reflexivity | | exact Hw].
    unfold script_outputs. apply in_or_app. right. right. now left.
  - cbn [stdout files set_stdout set_files world_before_icns].
    repeat apply conj.
    + rewrite <- app_assoc. reflexivity.
    + apply lookup_insert_eq.
    + reflexivity.
Qed.

(** X7: when the directory of the front-end asset exists as a regular
    file, [os.makedirs] raises [FileExistsError] and the run stops there:
    the four PNG files have been written, while the front-end asset,
    [icon.ico] and [icon.icns] are as they were. *)
Theorem frontend_directory_is_a_file (w : World) (f f0 : file) (img : Image) :
  files w !! SOURCE = Some f -> decode f = Some img ->
  Forall (writable w) png_paths ->
  files w !! posixpath.dirname FRONTEND_ICON = Some f0 ->
  exists w',
    main w = (w', Raise (FileExistsError (posixpath.dirname FRONTEND_ICON)))
    /\ (forall filename size, In (filename, size) PNG_SIZES ->
          files w' !! posixpath.join SCRIPT_DIR [filename]
          = Some (PNG_file (derived (converted img RGBA) size)))
    /\ files w' !! FRONTEND_ICON = files w !! FRONTEND_ICON
    /\ files w' !! ico_path = files w !! ico_path
    /\ files w' !! icns_path = files w !! icns_path.
Proof.
  intros Hf Hd Hw Hfile. eexists. split.
  - rewrite (main_after_check _ _ Hf).
    erewrite bind_Ok; [| eapply load_source_Ok; eassumption ].
    erewrite bind_Ok;
      [| apply generate_pngs_Ok with (im := converted img RGBA);
         [ wsimpl; apply lookup_app_second
         | eapply Forall_impl; [exact Hw|];
           intros p (? & ? & ?); repeat split; assumption ] ].
    apply bind_Raise. unfold generate_frontend_asset.
    erewrite bind_Ok;
      [| apply resize_Ok with (im := converted img RGBA);
         [wsimpl; apply lookup_app_l_Some, lookup_app_second
          | unfold ROUTINE_EDGE; lia] ].
    apply bind_Raise.
    apply os_makedirs_on_file with (f := f0). wsimpl.
    assert (Hne : forall p, In p png_paths ->
                            p <> posixpath.dirname FRONTEND_ICON).
    { intros p Hp ->. eapply script_outputs_not_ancestor;
        [apply in_png_paths, Hp | apply list_elem_of_In, ancestors_self]. }
    unfold png_paths, PNG_SIZES in Hne. cbn [map In] in Hne.
    rewrite !lookup_insert_ne by (apply Hne; auto 10). exact Hfile.
  - wsimpl. repeat apply conj.
    + intros filename size Hin. unfold PNG_SIZES in Hin. cbn [In] in Hin.
      destruct Hin as [[= <- <-]|[[= <- <-]|[[= <- <-]|[[= <- <-]|[]]]]];
        paths_under;
        repeat (first [ apply lookup_insert_eq
                      | rewrite lookup_insert_ne by under_ne ]).
    + paths_under. now rewrite !lookup_insert_ne by under_ne.
    + paths_under. now rewrite !lookup_insert_ne by under_ne.
    + paths_under. now rewrite !lookup_insert_ne by under_ne.
Qed.


(** X8: a failure of the environment while the second PNG is written
    ends the run with that exception and leaves a partial icon set:
    [32x32.png] has been written and reported, and no path other than the
    first two PNG files has changed. *)
Theorem png_write_failure_is_partial (w : World) (f : file) (img : Image)
        (e : exn) :
  files w !! SOURCE = Some f -> decode f = Some img ->
  writable w (posixpath.join SCRIPT_DIR ["32x32.png"]) ->
  posixpath.join SCRIPT_DIR ["128x128.png"] ∉ dirs w ->
  posixpath.dirname (posixpath.join SCRIPT_DIR ["128x128.png"]) ∈ dirs w ->
  io_fault (posixpath.join SCRIPT_DIR ["128x128.png"]) = Some e ->
  exists w',
    main w = (w', Raise e)
    /\ files w' !! posixpath.join SCRIPT_DIR ["32x32.png"]
       = Some (PNG_file (derived (converted img RGBA) 32))
    /\ (forall q, q <> posixpath.join SCRIPT_DIR ["32x32.png"] ->
                  q <> posixpath.join SCRIPT_DIR ["128x128.png"] ->
                  files w' !! q = files w !! q)
    /\ stdout w' = stdout w ++
         ["Source: " +:+ SOURCE +:+ " (" +:+ pretty (width img) +:+ "x"
          +:+ pretty (height img) +:+ ")"; ""; "  32x32.png (32x32)"].
Proof.
  intros Hf Hd W1 Hnd Hpar Hio.
  set (source := converted img RGBA).
  set (w2 := {| files := <[posixpath.join SCRIPT_DIR ["32x32.png"]
                           := PNG_file (derived source 32)]> (files w);
                dirs := dirs w;
                heap := heap w ++ [img; source; derived source 32;
                                   derived source 128];
                stdout := stdout w ++
                  ["Source: " +:+ SOURCE +:+ " (" +:+ pretty (width img) +:+ "x"
                   +:+ pretty (height img) +:+ ")"; ""; "  32x32.png (32x32)"] |}).
  destruct (Image_save_fault w2 (3 + length (heap w))%nat (derived source 128)
              (posixpath.join SCRIPT_DIR ["128x128.png"]) PNG no_params
              (PNG_file (derived source 128)) e) as [w' Hs];
    [| reflexivity | intros; reflexivity | exact Hnd | exact Hpar | exact Hio |].
  { subst w2. cbn [heap].
    change [img; source; derived source 32; derived source 128]
      with ([img; source; derived source 32] ++ [derived source 128]).
    rewrite app_assoc. apply list_lookup_middle.
    rewrite length_app. cbn [length]. lia. }
  pose proof (Image_save_frame _ _ _ _ _ _ _ Hs) as (Ho & _ & _ & Hfs).
  exists w'. split.
  - rewrite (main_after_check _ _ Hf).
    erewrite bind_Ok; [| eapply load_source_Ok; eassumption ].
    apply bind_Raise. unfold generate_pngs, PNG_SIZES. cbn [for_each].
    rewrite bind_assoc.
    erewrite bind_Ok;
      [| apply resize_Ok with (im := source);
         [wsimpl; apply lookup_app_second | unfold ROUTINE_EDGE; lia] ].
    rewrite bind_assoc. step_save_png. step_print. wsimpl.
    apply bind_Raise. cbv beta iota.
    erewrite bind_Ok;
      [| apply resize_Ok with (im := source);
         [wsimpl; apply lookup_app_l_Some, lookup_app_second
          | unfold ROUTINE_EDGE; lia] ].
    apply bind_Raise. wsimpl.
    etransitivity; [|exact Hs]. subst w2. unfold set_heap, set_stdout, set_files.
    wsimpl. f_equal.
    + rewrite !length_app. cbn [length]. lia.
    + f_equal; rewrite <- !app_assoc; reflexivity.
  - repeat apply conj.
    + rewrite Hfs by (paths_under; under_ne). apply lookup_insert_eq.
    + intros q Hq1 Hq2. rewrite Hfs by exact Hq2.
      subst w2. cbn [files]. now rewrite lookup_insert_ne.
    + rewrite Ho. reflexivity.
Qed.


(** ** Running the script again *)











End Generate.

(** ** The statements on the sample environment *)

Ltac by_computation := vm_compute; reflexivity.

Ltac decide_by_computation :=
  match goal with
  | |- ?P => apply (bool_decide_unpack P); vm_compute; exact I
  end.

Ltac sample_writable :=
  repeat apply conj; [decide_by_computation | decide_by_computation | reflexivity].

Ltac sample_ready :=
  constructor;
  [ eexists; split; [by_computation | reflexivity]
  | repeat (apply Forall_cons_2; [sample_writable|]); apply Forall_nil_2
  | decide_by_computation
  | decide_by_computation
  | reflexivity ].

Lemma source_not_found_witness :
  exists w',
    main Sample.script_dir Sample.decode Sample.convert_data
         Sample.resample_data Sample.ample_memory Sample.ico_scaled false Sample.no_fault
         Sample.empty_world = (w', Ok tt)
    /\ stdout w' = ["ERROR: Source not found: " +:+ Sample.source_path]
    /\ files w' = ∅ /\ dirs w' = {[ Sample.script_dir ]} /\ heap w' = [].
Proof.
  apply (source_not_found Sample.script_dir Sample.decode Sample.convert_data
           Sample.resample_data Sample.ample_memory Sample.ico_scaled false Sample.no_fault
           Sample.empty_world).
  - by_computation.
  - decide_by_computation.
Defined.

Lemma png_set_emitted_witness :
  exists w',
    generate_pngs Sample.script_dir Sample.resample_data Sample.ample_memory Sample.ico_scaled
                  true Sample.no_fault 0%nat Sample.loaded_world = (w', Ok tt)
    /\ (forall filename size, In (filename, size) PNG_SIZES ->
        exists png,
          files w' !! posixpath.join Sample.script_dir [filename]
          = Some (PNG_file png)
          /\ png = derived Sample.resample_data Sample.small_logo size
          /\ width png = size /\ height png = size /\ im_mode png = RGBA)
    /\ (forall q, ~ In q (png_paths Sample.script_dir) ->
                  files w' !! q = files Sample.loaded_world !! q)
    /\ dirs w' = dirs Sample.loaded_world
    /\ PNG_SIZES = [("32x32.png", 32); ("128x128.png", 128);
                    ("128x128@2x.png", 256); ("icon.png", 512)].
Proof.
  apply (png_set_emitted Sample.script_dir Sample.resample_data Sample.ample_memory
           Sample.ico_scaled true Sample.no_fault
           Sample.loaded_world 0%nat Sample.small_logo).
  - reflexivity.
  - reflexivity.
  - repeat (apply Forall_cons_2; [sample_writable|]). apply Forall_nil_2.
Defined.

Lemma ico_embeds_only_16_witness :
  exists w' frame,
    main Sample.script_dir Sample.decode Sample.convert_data
         Sample.resample_data Sample.ample_memory Sample.ico_scaled true Sample.no_fault
         Sample.world = (w', Ok tt)
    /\ files w' !! ico_path Sample.script_dir = Some (ICO_file [frame])
    /\ frame = derived Sample.resample_data
                       (converted Sample.convert_data Sample.logo RGBA) 16
    /\ im_size frame = (16, 16)
    /\ map im_size [frame] <> map (fun s => (s, s)) ico_sizes.
Proof.
  apply (ico_embeds_only_16 Sample.script_dir Sample.decode Sample.convert_data
           Sample.resample_data Sample.ample_memory Sample.ico_scaled true Sample.no_fault
           Sample.world Sample.logo).
  sample_ready.
Defined.

Lemma icns_unavailable_tolerated_witness :
  exists w',
    main Sample.script_dir Sample.decode Sample.convert_data
         Sample.resample_data Sample.ample_memory Sample.ico_scaled false Sample.no_fault
         Sample.world = (w', Ok tt)
    /\ (exists printed, stdout w' = printed ++ [ICNS_WARNING; ""; DONE])
    /\ (exists frames,
          files w' !! ico_path Sample.script_dir = Some (ICO_file frames))
    /\ files w' !! icns_path Sample.script_dir = None.
Proof.
  destruct (icns_unavailable_tolerated Sample.script_dir Sample.decode
              Sample.convert_data Sample.resample_data Sample.ample_memory Sample.ico_scaled
              false Sample.no_fault Sample.world Sample.logo)
    as (w' & Hm & Ho & _ & _ & _ & _ & _ & Hico & Hicns).
  - reflexivity.
  - sample_ready.
  - exists w'. repeat apply conj; assumption.
Defined.



Lemma frontend_asset_emitted_witness :
  exists w' png,
    generate_frontend_asset Sample.script_dir Sample.resample_data Sample.ample_memory
                            Sample.ico_scaled true Sample.no_fault
                            0%nat Sample.loaded_world
    = (w', Ok tt)
    /\ files w' !! FRONTEND_ICON Sample.script_dir = Some (PNG_file png)
    /\ im_size png = (256, 256)
    /\ (posixpath.dirname (FRONTEND_ICON Sample.script_dir)
        ∉ dirs Sample.loaded_world)
    /\ (posixpath.dirname (FRONTEND_ICON Sample.script_dir) ∈ dirs w').
Proof.
  destruct (frontend_asset_emitted Sample.script_dir Sample.resample_data Sample.ample_memory
              Sample.ico_scaled true Sample.no_fault
              Sample.loaded_world 0%nat Sample.small_logo)
    as (w' & png & Hr & Hf & _ & Hs & _ & Hd & _).
  - reflexivity.
  - decide_by_computation.
  - decide_by_computation.
  - reflexivity.
  - exists w', png. repeat apply conj; try assumption.
    decide_by_computation.
Defined.


Lemma no_dimension_validation_witness :
  exists w',
    main Sample.script_dir Sample.decode Sample.convert_data
         Sample.resample_data Sample.ample_memory Sample.ico_scaled true
         Sample.no_fault Sample.small_world = (w', Ok tt)
    /\ last (stdout w') = Some DONE
    /\ im_size Sample.small_logo = (20, 10)
    /\ (exists png,
          files w' !! posixpath.join Sample.script_dir ["icon.png"]
          = Some (PNG_file png)
          /\ im_size png = (512, 512))
    /\ (exists frames,
          files w' !! ico_path Sample.script_dir = Some (ICO_file frames)
          /\ map im_size frames = [(16, 16)]).
Proof.
  destruct (no_dimension_validation Sample.script_dir Sample.decode
              Sample.convert_data Sample.resample_data Sample.ample_memory
              Sample.ico_scaled true Sample.no_fault Sample.small_world
              Sample.small_logo)
    as (w' & Hm & Hl & Hpng & _ & (frames & Hico & _ & Hsizes & _)).
  - sample_ready.
  - exists w'. repeat apply conj; [exact Hm | exact Hl | reflexivity | |].
    + destruct (Hpng "icon.png" 512) as (png & Hf & _ & Hs);
        [cbn; auto 10|].
      exists png. split; assumption.
    + exists frames. split; assumption.
Defined.

Lemma icns_handler_catches_all_witness :
  exists w',
    main Sample.script_dir Sample.decode Sample.convert_data
         Sample.resample_data Sample.ample_memory Sample.ico_scaled true Sample.icns_fault
         Sample.world = (w', Ok tt)
    /\ (exists printed, stdout w' = printed ++ [ICNS_WARNING; ""; DONE]).
Proof.
  destruct (icns_handler_catches_all Sample.script_dir Sample.decode
              Sample.convert_data Sample.resample_data Sample.ample_memory Sample.ico_scaled
              true Sample.icns_fault Sample.world
              (fst (before_icns Sample.script_dir Sample.decode
                      Sample.convert_data Sample.resample_data Sample.ample_memory
                      Sample.ico_scaled true Sample.icns_fault Sample.world))
              (fst (before_icns Sample.script_dir Sample.decode
                      Sample.convert_data Sample.resample_data Sample.ample_memory
                      Sample.ico_scaled true Sample.icns_fault Sample.world))
              (PNG_file Sample.logo) 1%nat
              (OSError "No space left on device"))
    as (w' & Hm & Ho & _ & _ & _).
  - by_computation.
  - by_computation.
  - by_computation.
  - exists w'. split; [exact Hm|]. eexists. exact Ho.
Defined.

(** The further properties on the sample environment. *)

Lemma main_writes_only_outputs_witness :
  files (fst (main Sample.script_dir Sample.decode Sample.convert_data
                   Sample.resample_data Sample.ample_memory Sample.ico_scaled true Sample.png_fault
                   Sample.world)) !! Sample.source_path
  = Some (PNG_file Sample.logo).
Proof.
  destruct (main_writes_only_outputs Sample.script_dir Sample.decode
              Sample.convert_data Sample.resample_data Sample.ample_memory Sample.ico_scaled
              true Sample.png_fault Sample.world
              (fst (main Sample.script_dir Sample.decode Sample.convert_data
                      Sample.resample_data Sample.ample_memory Sample.ico_scaled true
                      Sample.png_fault Sample.world))
              (snd (main Sample.script_dir Sample.decode Sample.convert_data
                      Sample.resample_data Sample.ample_memory Sample.ico_scaled true
                      Sample.png_fault Sample.world)))
    as (_ & H & _).
  - apply surjective_pairing.
  - etransitivity; [exact H | by_computation].
Defined.

Lemma main_only_adds_witness :
  dirs Sample.world
  ⊆ dirs (fst (main Sample.script_dir Sample.decode Sample.convert_data
                    Sample.resample_data Sample.ample_memory Sample.ico_scaled false
                    Sample.no_fault Sample.world)).
Proof.
  destruct (main_only_adds Sample.script_dir Sample.decode
              Sample.convert_data Sample.resample_data Sample.ample_memory Sample.ico_scaled
              false Sample.no_fault Sample.world
              (fst (main Sample.script_dir Sample.decode Sample.convert_data
                      Sample.resample_data Sample.ample_memory Sample.ico_scaled false
                      Sample.no_fault Sample.world))
              (snd (main Sample.script_dir Sample.decode Sample.convert_data
                      Sample.resample_data Sample.ample_memory Sample.ico_scaled false
                      Sample.no_fault Sample.world)))
    as (H & _).
  - apply surjective_pairing.
  - exact H.
Defined.

Lemma complete_run_transcript_witness :
  exists w',
    main Sample.script_dir Sample.decode Sample.convert_data
         Sample.resample_data Sample.ample_memory Sample.ico_scaled true Sample.no_fault
         Sample.world = (w', Ok tt)
    /\ last (stdout w') = Some DONE
    /\ files w' !! icns_path Sample.script_dir
       = Some (ICNS_file (converted Sample.convert_data Sample.logo RGBA)).
Proof.
  destruct (complete_run_transcript Sample.script_dir Sample.decode
              Sample.convert_data Sample.resample_data Sample.ample_memory Sample.ico_scaled
              true Sample.no_fault Sample.world Sample.logo)
    as (w' & Hm & Ho & Hf & _).
  - reflexivity.
  - sample_ready.
  - sample_writable.
  - exists w'. repeat apply conj; [exact Hm | | exact Hf].
    rewrite Ho. reflexivity.
Defined.


Lemma source_is_a_directory_witness :
  main Sample.script_dir Sample.decode Sample.convert_data
       Sample.resample_data Sample.ample_memory Sample.ico_scaled true Sample.no_fault
       Sample.directory_world
  = (Sample.directory_world, Raise (IsADirectoryError Sample.source_path)).
Proof.
  apply (source_is_a_directory Sample.script_dir Sample.decode
           Sample.convert_data Sample.resample_data Sample.ample_memory Sample.ico_scaled
           true Sample.no_fault Sample.directory_world).
  - by_computation.
  - decide_by_computation.
Defined.

Lemma frontend_directory_is_a_file_witness :
  exists w',
    main Sample.script_dir Sample.decode Sample.convert_data
         Sample.resample_data Sample.ample_memory Sample.ico_scaled true Sample.no_fault
         Sample.blocked_world
    = (w', Raise (FileExistsError Sample.assets_path))
    /\ files w' !! ico_path Sample.script_dir = None.
Proof.
  destruct (frontend_directory_is_a_file Sample.script_dir Sample.decode
              Sample.convert_data Sample.resample_data Sample.ample_memory Sample.ico_scaled
              true Sample.no_fault Sample.blocked_world
              (PNG_file Sample.logo) (Blob []) Sample.logo)
    as (w' & Hm & _ & _ & Hico & _).
  - by_computation.
  - reflexivity.
  - repeat (apply Forall_cons_2; [sample_writable|]). apply Forall_nil_2.
  - by_computation.
  - exists w'. split; [exact Hm|].
    etransitivity; [exact Hico | by_computation].
Defined.

Lemma png_write_failure_is_partial_witness :
  exists w',
    main Sample.script_dir Sample.decode Sample.convert_data
         Sample.resample_data Sample.ample_memory Sample.ico_scaled true Sample.png_fault
         Sample.world
    = (w', Raise (OSError "Disk quota exceeded"))
    /\ files w' !! posixpath.join Sample.script_dir ["icon.png"] = None.
Proof.
  destruct (png_write_failure_is_partial Sample.script_dir Sample.decode
              Sample.convert_data Sample.resample_data Sample.ample_memory Sample.ico_scaled
              true Sample.png_fault Sample.world
              (PNG_file Sample.logo) Sample.logo
              (OSError "Disk quota exceeded"))
    as (w' & Hm & _ & Hother & _).
  - by_computation.
  - reflexivity.
  - sample_writable.
  - decide_by_computation.
  - decide_by_computation.
  - reflexivity.
  - exists w'. split; [exact Hm|].
    etransitivity; [apply Hother; discriminate | by_computation].
Defined.

Lemma frontend_asset_is_the_2x_png_witness :
  exists w' png,
    main Sample.script_dir Sample.decode Sample.convert_data
         Sample.resample_data Sample.ample_memory Sample.ico_scaled true Sample.no_fault
         Sample.world = (w', Ok tt)
    /\ files w' !! FRONTEND_ICON Sample.script_dir = Some (PNG_file png)
    /\ files w' !! posixpath.join Sample.script_dir ["128x128@2x.png"]
       = Some (PNG_file png)
    /\ im_size png = (256, 256)
    /\ im_mode png = RGBA
    /\ im_data png
       = Sample.resample_data LANCZOS
           (converted Sample.convert_data Sample.logo RGBA) (256, 256).
Proof.
  apply (frontend_asset_is_the_2x_png Sample.script_dir Sample.decode
           Sample.convert_data Sample.resample_data Sample.ample_memory Sample.ico_scaled
           true Sample.no_fault Sample.world Sample.logo).
  sample_ready.
Defined.

Lemma outputs_are_rgba_witness :
  im_mode Sample.logo = RGB
  /\ exists w',
      main Sample.script_dir Sample.decode Sample.convert_data
           Sample.resample_data Sample.ample_memory Sample.ico_scaled true Sample.no_fault
           Sample.world = (w', Ok tt)
      /\ (exists png, files w' !! FRONTEND_ICON Sample.script_dir
                      = Some (PNG_file png)
                      /\ im_mode png = RGBA).
Proof.
  split; [reflexivity|].
  destruct (outputs_are_rgba Sample.script_dir Sample.decode
              Sample.convert_data Sample.resample_data Sample.ample_memory Sample.ico_scaled
              true Sample.no_fault Sample.world Sample.logo)
    as (w' & Hm & _ & Hfront & _).
  - sample_ready.
  - exists w'. split; assumption.
Defined.

